(** * Malaysian CPI analytics: staging and mart transformations, loader,
      backup uploader.

    Shallow embedding of [src/data_ingestion/*.py].  SQL queries are
    modelled as total functions over lists of rows that either yield a
    result set or raise (Postgres raises on division by zero); SQL NULL is
    [None]; numeric columns (double precision in the warehouse) are modelled
    with exact rationals [Q].  Python methods with side effects are modelled
    as state-passing functions over an explicit [world], with exceptions as
    the [Raise] case of [result]. *)

From Stdlib Require Import String List QArith Bool Arith Lia Lqa Permutation Sorted NArith.
Import ListNotations.
Open Scope string_scope.
Open Scope list_scope.
Open Scope nat_scope.

(** ** Results: SQL errors and Python exceptions *)

Inductive result (A : Type) : Type :=
| Ok (a : A)
| Raise (e : string).
Arguments Ok {A} a.
Arguments Raise {A} e.

Definition bind {A B} (m : result A) (f : A -> result B) : result B :=
  match m with
  | Ok a => f a
  | Raise e => Raise e
  end.

Notation "'let*' x ':=' m 'in' k" := (bind m (fun x => k))
  (at level 200, x name, m at level 100, k at level 200).

Fixpoint mapM {A B} (f : A -> result B) (l : list A) : result (list B) :=
  match l with
  | [] => Ok []
  | x :: t => let* y := f x in let* ys := mapM f t in Ok (y :: ys)
  end.

(** ** SQL scalar semantics *)

(** [a = 'lit'] and [a != 'lit'] on a nullable text column, as used in a
    WHERE clause: NULL compares to UNKNOWN, which filters the row out. *)
Definition sql_eq_lit (a : option string) (lit : string) : bool :=
  match a with Some s => String.eqb s lit | None => false end.

Definition sql_neq_lit (a : option string) (lit : string) : bool :=
  match a with Some s => negb (String.eqb s lit) | None => false end.

(** [x / y] on double precision: NULL if an operand is NULL (the operator
    is strict), an error if the divisor is zero. *)
Definition sql_div (x y : option Q) : result (option Q) :=
  match x, y with
  | Some a, Some b =>
      if Qeq_bool b 0 then Raise "division by zero" else Ok (Some (a / b)%Q)
  | _, _ => Ok None
  end.

(** [CASE WHEN prev IS NOT NULL THEN ((cur / prev) - 1) * 100
         ELSE NULL END] *)
Definition pct_change (cur prev : option Q) : result (option Q) :=
  match prev with
  | None => Ok None
  | Some _ =>
      let* q := sql_div cur prev in
      Ok (option_map (fun r => ((r - 1) * 100)%Q) q)
  end.

(** [LAG(v, k)] at position [i] of an ordered partition whose values are
    [vals]: the value [k] rows earlier, NULL when out of range. *)
Definition lag (k : nat) (vals : list (option Q)) (i : nat) : option Q :=
  if Nat.ltb i k then None
  else match nth_error vals (i - k) with Some v => v | None => None end.

(** ** Rows of staging.cpi_monthly *)

Record cpi_monthly := mk_cpi_monthly {
  state : string;
  date : nat;
  division : option string;
  category_name : string;
  index_value : option Q
}.

(** ORDER BY inside a window or a query: stable insertion sort by a strict
    "sorts before" test; rows that tie keep their input order. *)
Fixpoint insert_with {A} (lt : A -> A -> bool) (x : A) (l : list A) : list A :=
  match l with
  | [] => [x]
  | y :: t => if lt x y then x :: l else y :: insert_with lt x t
  end.

Definition sort_with {A} (lt : A -> A -> bool) (l : list A) : list A :=
  fold_right (insert_with lt) [] l.

Definition by_key {A} (key : A -> nat) : A -> A -> bool :=
  fun x y => Nat.ltb (key x) (key y).

(** ORDER BY state: distinct partition keys in ascending order. *)
Fixpoint insert_str (x : string) (l : list string) : list string :=
  match l with
  | [] => [x]
  | y :: t =>
      if String.eqb x y then l
      else if String.ltb x y then x :: l else y :: insert_str x t
  end.

Definition distinct_sorted (l : list string) : list string :=
  fold_right insert_str [] l.

Definition indexed {A} (l : list A) : list (nat * A) :=
  combine (seq 0 (List.length l)) l.

(** ** mart.inflation_by_state ([build_inflation_by_state]) *)

Record inflation_by_state_row := mk_ibs {
  ibs_state : string;
  ibs_date : nat;
  ibs_index_value : option Q;
  mom_change : option Q;
  yoy_change : option Q;
  inflation_rate : option Q
}.

(** The rows of [cpi_with_lag] for one state:
    [WHERE division = 'overall'], [PARTITION BY state ORDER BY date]. *)
Definition state_series (rows : list cpi_monthly) (st : string)
  : list cpi_monthly :=
  sort_with (by_key date)
    (filter (fun r => String.eqb (state r) st
                      && sql_eq_lit (division r) "overall") rows).

(** The outer SELECT over one partition. *)
Definition state_partition_rows (series : list cpi_monthly)
  : result (list inflation_by_state_row) :=
  let vals := map index_value series in
  mapM (fun '(i, r) =>
          let prev_month_index := lag 1 vals i in
          let prev_year_index := lag 12 vals i in
          let* mom := pct_change (index_value r) prev_month_index in
          let* yoy := pct_change (index_value r) prev_year_index in
          let* infl := pct_change (index_value r) prev_year_index in
          Ok (mk_ibs (state r) (date r) (index_value r) mom yoy infl))
       (indexed series).

Definition overall_states (rows : list cpi_monthly) : list string :=
  distinct_sorted
    (map state (filter (fun r => sql_eq_lit (division r) "overall") rows)).

(** The whole query, [ORDER BY state, date]. *)
Definition inflation_by_state (rows : list cpi_monthly)
  : result (list inflation_by_state_row) :=
  let* parts := mapM (fun st => state_partition_rows (state_series rows st))
                     (overall_states rows) in
  Ok (concat parts).

(** ** SQL aggregates: MAX, MIN and AVG skip NULLs, and are NULL when no
    non-NULL value is left. *)

Definition non_null (l : list (option Q)) : list Q :=
  flat_map (fun v => match v with Some x => [x] | None => [] end) l.

Definition sql_max (l : list (option Q)) : option Q :=
  fold_right (fun x acc => match acc with
                           | None => Some x
                           | Some m => Some (if Qle_bool x m then m else x)
                           end) None (non_null l).

Definition sql_min (l : list (option Q)) : option Q :=
  fold_right (fun x acc => match acc with
                           | None => Some x
                           | Some m => Some (if Qle_bool x m then x else m)
                           end) None (non_null l).

Definition sql_avg (l : list (option Q)) : option Q :=
  match non_null l with
  | [] => None
  | xs => Some (fold_right Qplus 0 xs / inject_Z (Z.of_nat (length xs)))%Q
  end.

(** ** mart.state_comparison ([build_state_comparison]) *)

(** Rows of staging.states, the state -> region dimension. *)
Record state_dim := mk_state_dim {
  state_name : string;
  dim_region : option string
}.

(** [SELECT MAX(date) FROM staging.cpi_monthly] *)
Definition max_date (rows : list cpi_monthly) : option nat :=
  fold_right (fun r acc => match acc with
                           | None => Some (date r)
                           | Some m => Some (Nat.max (date r) m)
                           end) None rows.

Record pivoted_row := mk_pivoted {
  p_state : string;
  p_latest_date : nat;
  p_overall_cpi : option Q;
  p_food_cpi : option Q;
  p_housing_cpi : option Q;
  p_transport_cpi : option Q
}.

(** [MAX(CASE WHEN division = div THEN index_value END)] over a group. *)
Definition pivot_col (div : string) (grp : list cpi_monthly) : option Q :=
  sql_max (map (fun r => if sql_eq_lit (division r) div then index_value r
                         else None) grp).

(** [latest_data] and [pivoted]: GROUP BY state, date on the rows of the
    most recent date. *)
Definition pivoted (rows : list cpi_monthly) : list pivoted_row :=
  match max_date rows with
  | None => []
  | Some m =>
      let latest := filter (fun r => Nat.eqb (date r) m) rows in
      map (fun st =>
             let grp := filter (fun r => String.eqb (state r) st) latest in
             mk_pivoted st m (pivot_col "overall" grp) (pivot_col "01" grp)
                        (pivot_col "04" grp) (pivot_col "07" grp))
          (distinct_sorted (map state latest))
  end.

(** [LEFT JOIN staging.states s ON p.state = s.state_name] *)
Definition join_region (states : list state_dim) (p : pivoted_row)
  : list (pivoted_row * option string) :=
  match filter (fun s => String.eqb (state_name s) (p_state p)) states with
  | [] => [(p, None)]
  | ms => map (fun s => (p, dim_region s)) ms
  end.

(** [ORDER BY overall_cpi DESC]: [a] sorts strictly before [b]; Postgres
    places NULLs first in descending order. *)
Definition desc_before (a b : option Q) : bool :=
  match a, b with
  | None, None => false
  | None, Some _ => true
  | Some _, None => false
  | Some x, Some y => negb (Qle_bool x y)
  end.

(** [RANK() OVER (ORDER BY overall_cpi DESC)]: one plus the number of rows of
    the window sorting strictly before the current one. *)
Definition sql_rank (keys : list (option Q)) (k : option Q) : nat :=
  S (length (filter (fun k' => desc_before k' k) keys)).

Record state_comparison_row := mk_sc {
  sc_state : string;
  sc_latest_date : nat;
  overall_cpi : option Q;
  food_cpi : option Q;
  housing_cpi : option Q;
  transport_cpi : option Q;
  rank_overall : nat;
  region : option string;
  pct_vs_cheapest : option Q
}.

Definition state_comparison (rows : list cpi_monthly) (states : list state_dim)
  : result (list state_comparison_row) :=
  let with_ranks := flat_map (join_region states) (pivoted rows) in
  let keys := map (fun pr => p_overall_cpi (fst pr)) with_ranks in
  let cheapest := sql_min keys in
  let* out :=
    mapM (fun '(p, reg) =>
            let* q := sql_div (p_overall_cpi p) cheapest in
            Ok (mk_sc (p_state p) (p_latest_date p) (p_overall_cpi p)
                      (p_food_cpi p) (p_housing_cpi p) (p_transport_cpi p)
                      (sql_rank keys (p_overall_cpi p)) reg
                      (option_map (fun r => ((r - 1) * 100)%Q) q)))
         with_ranks in
  Ok (sort_with (fun a b => desc_before (overall_cpi a) (overall_cpi b)) out).

(** ** mart.inflation_by_category ([build_inflation_by_category]) *)

Definition opt_str_eqb (a b : option string) : bool :=
  match a, b with
  | Some x, Some y => String.eqb x y
  | None, None => true
  | _, _ => false
  end.

(** ASC order on a nullable text column: NULLs last. *)
Definition opt_str_ltb (a b : option string) : bool :=
  match a, b with
  | Some x, Some y => String.ltb x y
  | Some _, None => true
  | None, _ => false
  end.

Definition dedup {A} (eqb : A -> A -> bool) (l : list A) : list A :=
  fold_left (fun acc x => if existsb (eqb x) acc then acc else acc ++ [x]) l [].

Definition cat_key : Type := (nat * option string * string)%type.

Definition group_key (r : cpi_monthly) : cat_key :=
  (date r, division r, category_name r).

Definition key_eqb (a b : cat_key) : bool :=
  let '(d1, v1, c1) := a in
  let '(d2, v2, c2) := b in
  Nat.eqb d1 d2 && opt_str_eqb v1 v2 && String.eqb c1 c2.

Record category_avg_row := mk_cat_avg {
  ca_date : nat;
  ca_division : option string;
  ca_category_name : string;
  ca_avg_index : option Q
}.

(** The rows of staging.cpi_monthly that [category_avg] reads. *)
Definition category_source (rows : list cpi_monthly) : list cpi_monthly :=
  filter (fun r => sql_neq_lit (division r) "overall") rows.

(** The staging rows of one GROUP BY group. *)
Definition category_group (rows : list cpi_monthly) (k : cat_key)
  : list cpi_monthly :=
  filter (fun r => key_eqb (group_key r) k) (category_source rows).

(** [category_avg]: GROUP BY date, division, category_name. *)
Definition category_avg (rows : list cpi_monthly) : list category_avg_row :=
  map (fun k =>
         let '(d, v, c) := k in
         mk_cat_avg d v c (sql_avg (map index_value (category_group rows k))))
      (dedup key_eqb (map group_key (category_source rows))).

(** [PARTITION BY division ORDER BY date] over [category_avg]. *)
Definition division_series (avg : list category_avg_row) (v : option string)
  : list category_avg_row :=
  sort_with (by_key ca_date) (filter (fun a => opt_str_eqb (ca_division a) v) avg).

Record inflation_by_category_row := mk_ibc {
  ibc_date : nat;
  ibc_division : option string;
  ibc_category_name : string;
  avg_index : option Q;
  ibc_mom_change : option Q;
  ibc_yoy_change : option Q
}.

Definition division_partition_rows (series : list category_avg_row)
  : result (list inflation_by_category_row) :=
  let vals := map ca_avg_index series in
  mapM (fun '(i, a) =>
          let* mom := pct_change (ca_avg_index a) (lag 1 vals i) in
          let* yoy := pct_change (ca_avg_index a) (lag 12 vals i) in
          Ok (mk_ibc (ca_date a) (ca_division a) (ca_category_name a)
                     (ca_avg_index a) mom yoy))
       (indexed series).

(** The whole query, [ORDER BY date, division]. *)
Definition inflation_by_category (rows : list cpi_monthly)
  : result (list inflation_by_category_row) :=
  let avg := category_avg rows in
  let* parts := mapM (fun v => division_partition_rows (division_series avg v))
                     (dedup opt_str_eqb (map ca_division avg)) in
  Ok (sort_with (fun a b => Nat.ltb (ibc_date a) (ibc_date b)
                            || (Nat.eqb (ibc_date a) (ibc_date b)
                                && opt_str_ltb (ibc_division a) (ibc_division b)))
                (concat parts)).

(** ** staging.cpi_monthly ([StagingTransformer.transform_cpi_monthly]) *)

(** Rows of raw.cpi_data and raw.categories as loaded from the extracts. *)
Record raw_cpi := mk_raw_cpi {
  raw_state : string;
  raw_date : nat;
  raw_division : option string;
  raw_index : option Q
}.

Record raw_category := mk_raw_category {
  cat_division : option string;
  desc_en : option string;
  desc_bm : option string;
  digits : option nat
}.

(** [c.division = cat.division] in a join condition: NULL never matches. *)
Definition sql_eq_opt (a b : option string) : bool :=
  match a, b with Some x, Some y => String.eqb x y | _, _ => false end.

Definition sql_eq_nat (a : option nat) (n : nat) : bool :=
  match a with Some m => Nat.eqb m n | None => false end.

(** [ON c.division = cat.division AND cat.digits = 2] *)
Definition category_matches (c : raw_cpi) (cat : raw_category) : bool :=
  sql_eq_opt (raw_division c) (cat_division cat) && sql_eq_nat (digits cat) 2.

Definition coalesce (a : option string) (dflt : string) : string :=
  match a with Some s => s | None => dflt end.

(** [raw.cpi_data c LEFT JOIN raw.categories cat]: one output row per
    matching category row, or one row padded with NULLs when none matches;
    [COALESCE(cat.desc_en, 'Overall') as category_name]. *)
Definition left_join_categories (cats : list raw_category) (c : raw_cpi)
  : list cpi_monthly :=
  match filter (category_matches c) cats with
  | [] => [mk_cpi_monthly (raw_state c) (raw_date c) (raw_division c)
                          "Overall" (raw_index c)]
  | ms => map (fun cat => mk_cpi_monthly (raw_state c) (raw_date c)
                                         (raw_division c)
                                         (coalesce (desc_en cat) "Overall")
                                         (raw_index c)) ms
  end.

(** [ORDER BY c.date, c.state, c.division] *)
Definition staging_before (a b : cpi_monthly) : bool :=
  Nat.ltb (date a) (date b)
  || (Nat.eqb (date a) (date b)
      && (String.ltb (state a) (state b)
          || (String.eqb (state a) (state b)
              && opt_str_ltb (division a) (division b)))).

Definition transform_cpi_monthly (raw : list raw_cpi) (cats : list raw_category)
  : list cpi_monthly :=
  sort_with staging_before (flat_map (left_join_categories cats) raw).

(** The row-count comparison of [validate_staging] (a mismatch is only
    logged as a warning). *)
Definition row_counts_match (raw_count stg_count : nat) : bool :=
  Nat.eqb raw_count stg_count.

(** ** Python methods with effects: a state and exception monad

    [PyM W A] runs against a world [W] and either returns an [A] or raises
    an exception carrying its text; [ptry] is [try ... except Exception]. *)

Definition PyM (W A : Type) : Type := W -> W * result A.

Definition pret {W A} (a : A) : PyM W A := fun w => (w, Ok a).

Definition praise {W A} (e : string) : PyM W A := fun w => (w, Raise e).

Definition pbind {W A B} (m : PyM W A) (k : A -> PyM W B) : PyM W B :=
  fun w => match m w with
           | (w', Ok a) => k a w'
           | (w', Raise e) => (w', Raise e)
           end.

Definition ptry {W A} (m : PyM W A) (handler : string -> PyM W A) : PyM W A :=
  fun w => match m w with
           | (w', Raise e) => handler e w'
           | ok => ok
           end.

Notation "x <- m ;; k" := (pbind m (fun x => k))
  (at level 61, m at next level, right associativity).
Notation "m ;;; k" := (pbind m (fun _ => k))
  (at level 61, right associativity).

(** ** Warehouse loader ([PostgreSQLLoader]) *)

Inductive if_exists_mode := Replace | Append | FailIfExists.

(** A row of raw.load_metadata (load_timestamp is filled by the database). *)
Record audit_rec := mk_audit {
  audit_table : string;
  records_loaded : nat;
  load_status : string;
  error_message : option string
}.

(** The warehouse as the loader sees it: the raw tables with their row
    counts, and the audit table. *)
Record warehouse := mk_warehouse {
  raw_tables : list (string * nat);
  load_metadata : list audit_rec
}.

(** How [df.to_sql] fails for a table: the exception text, and what it
    leaves behind.  pandas runs the load in one transaction but commits it
    when the context exits, also when an error raised on the Python side
    escapes: the DROP/CREATE of 'replace' and the chunks already sent then
    stay, and the table is left with [rows_left = Some k] rows.  [None]: the
    table keeps its previous contents (a database error rolls the
    transaction back). *)
Record to_sql_failure := mk_to_sql_failure {
  failure_message : string;
  rows_left : option nat
}.

(** What the storage layer does: how (if at all) [df.to_sql] fails for a
    table, and the error (if any) the INSERT into raw.load_metadata raises. *)
Record loader_env := mk_loader_env {
  to_sql_error : string -> option to_sql_failure;
  metadata_error : option string
}.

Definition lookup_table (t : string) (tbls : list (string * nat)) : option nat :=
  option_map snd (find (fun p => String.eqb (fst p) t) tbls).

Definition set_table (t : string) (n : nat) (tbls : list (string * nat))
  : list (string * nat) :=
  (t, n) :: filter (fun p => negb (String.eqb (fst p) t)) tbls.

(** The exception [df.to_sql(table, schema='raw', if_exists=mode)] raises,
    if any. *)
Definition to_sql_outcome (env : loader_env) (mode : if_exists_mode)
  (table : string) (w : warehouse) : option string :=
  match to_sql_error env table with
  | Some f => Some (failure_message f)
  | None =>
      match mode, lookup_table table (raw_tables w) with
      | FailIfExists, Some _ => Some ("Table '" ++ table ++ "' already exists.")%string
      | _, _ => None
      end
  end.

(** The row count of the table after a successful [df.to_sql]. *)
Definition stored_count (mode : if_exists_mode) (table : string) (n : nat)
  (w : warehouse) : nat :=
  match mode, lookup_table table (raw_tables w) with
  | Append, Some m => m + n
  | _, _ => n
  end.

(** The raw tables after a failed [df.to_sql]: what the failure left of the
    table (pandas' own "already exists" check of 'fail' runs before any
    statement, so it leaves everything as it was). *)
Definition failed_tables (env : loader_env) (table : string)
  (tbls : list (string * nat)) : list (string * nat) :=
  match to_sql_error env table with
  | Some f => match rows_left f with
              | Some k => set_table table k tbls
              | None => tbls
              end
  | None => tbls
  end.

(** [df.to_sql] *)
Definition to_sql_raw (env : loader_env) (mode : if_exists_mode)
  (table : string) (n : nat) : PyM warehouse unit :=
  fun w =>
    match to_sql_outcome env mode table w with
    | Some e => (mk_warehouse (failed_tables env table (raw_tables w)) (load_metadata w),
                 Raise e)
    | None =>
        (mk_warehouse (set_table table (stored_count mode table n w)
                                 (raw_tables w))
                      (load_metadata w),
         Ok tt)
    end.

(** [conn.execute(INSERT INTO raw.load_metadata ...); conn.commit()] *)
Definition insert_metadata (env : loader_env) (r : audit_rec)
  : PyM warehouse unit :=
  fun w =>
    match metadata_error env with
    | Some e => (w, Raise e)
    | None => (mk_warehouse (raw_tables w) (load_metadata w ++ [r]), Ok tt)
    end.

(** [_log_load]: a failure of the INSERT is only logged as a warning. *)
Definition log_load (env : loader_env) (table : string) (records : nat)
  (status : string) (error : option string) : PyM warehouse unit :=
  ptry (insert_metadata env (mk_audit table records status error))
       (fun _ => pret tt).

(** [load_to_raw(df, table_name, if_exists)], [n = len(df)]. *)
Definition load_to_raw (env : loader_env) (mode : if_exists_mode)
  (table : string) (n : nat) : PyM warehouse nat :=
  ptry (to_sql_raw env mode table n ;;;
        log_load env table n "SUCCESS" None ;;;
        pret n)
       (fun e => log_load env table 0 "FAILED" (Some e) ;;; praise e).

(** ** Mart run ([MartTransformer.run_all]) *)

(** The warehouse as the mart transformer sees it: the staging tables it
    reads, the three mart tables it replaces ([None]: absent), and the
    derivations started so far, in order. *)
Record mart_world := mk_mart_world {
  stg_cpi_monthly : list cpi_monthly;
  stg_states : list state_dim;
  mart_inflation_by_state : option (list inflation_by_state_row);
  mart_inflation_by_category : option (list inflation_by_category_row);
  mart_state_comparison : option (list state_comparison_row);
  builds_started : list string
}.

(** Storage-layer failures: the error [pd.read_sql] or [df.to_sql] raises
    for a derivation, if any. *)
Record mart_env := mk_mart_env {
  read_error : string -> option string;
  write_error : string -> option string
}.

Definition start_build (name : string) (w : mart_world) : mart_world :=
  mk_mart_world (stg_cpi_monthly w) (stg_states w) (mart_inflation_by_state w)
    (mart_inflation_by_category w) (mart_state_comparison w)
    (builds_started w ++ [name]).

(** One [build_*] method: run the query with [pd.read_sql], then replace the
    mart table with [df.to_sql(if_exists='replace')] (one transaction) and
    return [len(df)]. *)
Definition build_mart_table {R} (env : mart_env) (name : string)
  (query : list cpi_monthly -> list state_dim -> result (list R))
  (store : list R -> mart_world -> mart_world) : PyM mart_world nat :=
  fun w =>
    let w1 := start_build name w in
    match read_error env name with
    | Some e => (w1, Raise e)
    | None =>
        match query (stg_cpi_monthly w) (stg_states w) with
        | Raise e => (w1, Raise e)
        | Ok df =>
            match write_error env name with
            | Some e => (w1, Raise e)
            | None => (store df w1, Ok (length df))
            end
        end
    end.

Definition build_inflation_by_state (env : mart_env) : PyM mart_world nat :=
  build_mart_table env "inflation_by_state"
    (fun rows _ => inflation_by_state rows)
    (fun df w => mk_mart_world (stg_cpi_monthly w) (stg_states w) (Some df)
                   (mart_inflation_by_category w) (mart_state_comparison w)
                   (builds_started w)).

Definition build_inflation_by_category (env : mart_env) : PyM mart_world nat :=
  build_mart_table env "inflation_by_category"
    (fun rows _ => inflation_by_category rows)
    (fun df w => mk_mart_world (stg_cpi_monthly w) (stg_states w)
                   (mart_inflation_by_state w) (Some df)
                   (mart_state_comparison w) (builds_started w)).

Definition build_state_comparison (env : mart_env) : PyM mart_world nat :=
  build_mart_table env "state_comparison" state_comparison
    (fun df w => mk_mart_world (stg_cpi_monthly w) (stg_states w)
                   (mart_inflation_by_state w) (mart_inflation_by_category w)
                   (Some df) (builds_started w)).

(** [run_all]: any exception is logged and turned into [False]. *)
Definition mart_run_all (env : mart_env) : PyM mart_world bool :=
  ptry (state_count <- build_inflation_by_state env ;;
        category_count <- build_inflation_by_category env ;;
        comparison_count <- build_state_comparison env ;;
        pret true)
       (fun _ => pret false).

(** ** Backup uploader ([S3Uploader]) *)

(** What [s3_client.upload_file] does for one file: succeed, raise a
    botocore [ClientError], or raise another exception (boto3 reports a
    failed transfer as [S3UploadFailedError], missing credentials as
    [NoCredentialsError]; neither is a [ClientError]). *)
Inductive upload_outcome :=
| UploadOk
| ClientErr (msg : string)
| OtherErr (msg : string).

Record s3_env := mk_s3_env {
  client_upload : string -> string -> upload_outcome;
  today : string
}.

(** The local filesystem, the upload calls made (local path, key) and the
    keys stored in the bucket. *)
Record fs_world := mk_fs_world {
  local_files : list string;
  upload_calls : list (string * string);
  bucket : list string
}.

(** [upload_file]: [except ClientError] turns that error into [False];
    any other exception propagates. *)
Definition upload_file (env : s3_env) (local key : string) : PyM fs_world bool :=
  fun w =>
    let w1 := mk_fs_world (local_files w) (upload_calls w ++ [(local, key)])
                          (bucket w) in
    match client_upload env local key with
    | UploadOk => (mk_fs_world (local_files w1) (upload_calls w1)
                               (bucket w1 ++ [key]), Ok true)
    | ClientErr _ => (w1, Ok false)
    | OtherErr e => (w1, Raise e)
    end.

Definition path_exists (local : string) : PyM fs_world bool :=
  fun w => (w, Ok (existsb (String.eqb local) (local_files w))).

Record backup_results := mk_backup_results {
  res_date : string;
  uploaded : list string;
  failed : list string
}.

Definition add_uploaded (r : backup_results) (key : string) : backup_results :=
  mk_backup_results (res_date r) (uploaded r ++ [key]) (failed r).

Definition add_failed (r : backup_results) (local : string) : backup_results :=
  mk_backup_results (res_date r) (uploaded r) (failed r ++ [local]).

Definition files_to_upload (date : string) : list (string * string) :=
  [("data/raw/cpi_latest.parquet",
    "raw/cpi/date=" ++ date ++ "/cpi_data.parquet");
   ("data/raw/categories.parquet",
    "raw/categories/date=" ++ date ++ "/categories.parquet")]%string.

(** The [for file_info in files_to_upload] loop. *)
Fixpoint upload_each (env : s3_env) (files : list (string * string))
  (res : backup_results) : PyM fs_world backup_results :=
  match files with
  | [] => pret res
  | (local, key) :: rest =>
      ex <- path_exists local ;;
      if ex then
        success <- upload_file env local key ;;
        upload_each env rest (if success then add_uploaded res key
                              else add_failed res local)
      else upload_each env rest (add_failed res local)
  end.

(** [upload_data_backup(date_partition)]: [if not date_partition] falls
    back to today's date. *)
Definition upload_data_backup (env : s3_env) (date_partition : option string)
  : PyM fs_world backup_results :=
  let date := match date_partition with
              | Some d => if String.eqb d "" then today env else d
              | None => today env
              end in
  upload_each env (files_to_upload date) (mk_backup_results date [] []).


(** ** Orders of the ORDER BY clauses, as relations *)

Definition str_lt (a b : string) : Prop := String.ltb a b = true.

(** [ORDER BY state, date] on (state, date) pairs. *)
Definition state_date_le (a b : string * nat) : Prop :=
  str_lt (fst a) (fst b) \/ (fst a = fst b /\ snd a <= snd b).



(** ** Staging run ([StagingTransformer]) *)

(** Rows of staging.categories. *)
Record staging_category := mk_staging_category {
  stgc_division : option string;
  category_name_en : option string;
  category_name_bm : option string;
  category_level : option nat
}.

(** The query of [transform_categories]: [WHERE digits = 2]. *)
Definition categories_query (cats : list raw_category) : list staging_category :=
  map (fun c => mk_staging_category (cat_division c) (desc_en c) (desc_bm c) (digits c))
      (filter (fun c => sql_eq_nat (digits c) 2) cats).

(** The warnings [validate_staging] logs. *)
Inductive staging_warning :=
| RowCountMismatch (raw_count stg_count : nat)
| NullsFound (null_state null_date null_index : nat).

(** The warehouse as the staging transformer sees it: the raw tables it
    reads, the staging tables it replaces ([None]: absent), and the
    warnings logged. *)
Record staging_world := mk_staging_world {
  raw_cpi_data : list raw_cpi;
  raw_categories : list raw_category;
  stg_categories : option (list staging_category);
  stg_cpi_monthly_tbl : option (list cpi_monthly);
  staging_warnings : list staging_warning
}.

(** Storage-layer failures: the error [pd.read_sql] raises for a query, and
    the error [df.to_sql] raises for a table, if any.  Queries are named
    "categories", "cpi_monthly", "raw_count", "stg_count" and "nulls";
    tables "categories" and "cpi_monthly". *)
Record staging_env := mk_staging_env {
  stg_read_error : string -> option string;
  stg_write_error : string -> option string
}.

(** [pd.read_sql(query)]: the query's result, or the storage error. *)
Definition read_sql {A} (env : staging_env) (name : string) (q : staging_world -> result A)
  : PyM staging_world A :=
  fun w => match stg_read_error env name with
           | Some e => (w, Raise e)
           | None => (w, q w)
           end.

(** [df.to_sql(table, schema='staging', if_exists='replace')], one
    transaction. *)
Definition to_sql_staging (env : staging_env) (table : string)
  (store : staging_world -> staging_world) : PyM staging_world unit :=
  fun w => match stg_write_error env table with
           | Some e => (w, Raise e)
           | None => (store w, Ok tt)
           end.

Definition log_warning (x : staging_warning) : PyM staging_world unit :=
  fun w => (mk_staging_world (raw_cpi_data w) (raw_categories w) (stg_categories w)
                             (stg_cpi_monthly_tbl w) (staging_warnings w ++ [x]), Ok tt).

Definition transform_categories (env : staging_env) : PyM staging_world nat :=
  df <- read_sql env "categories" (fun w => Ok (categories_query (raw_categories w))) ;;
  to_sql_staging env "categories"
    (fun w => mk_staging_world (raw_cpi_data w) (raw_categories w) (Some df)
                               (stg_cpi_monthly_tbl w) (staging_warnings w)) ;;;
  pret (length df).

(** The method [transform_cpi_monthly] (its query is [transform_cpi_monthly]
    above). *)
Definition transform_cpi_monthly_method (env : staging_env) : PyM staging_world nat :=
  df <- read_sql env "cpi_monthly"
          (fun w => Ok (transform_cpi_monthly (raw_cpi_data w) (raw_categories w))) ;;
  to_sql_staging env "cpi_monthly"
    (fun w => mk_staging_world (raw_cpi_data w) (raw_categories w) (stg_categories w)
                               (Some df) (staging_warnings w)) ;;;
  pret (length df).

(** [SELECT ... FROM staging.cpi_monthly] on a table that does not exist. *)
Definition staging_table (w : staging_world) : result (list cpi_monthly) :=
  match stg_cpi_monthly_tbl w with
  | Some t => Ok t
  | None => Raise "relation staging.cpi_monthly does not exist"
  end.

Definition is_null_index (r : cpi_monthly) : bool :=
  match index_value r with None => true | Some _ => false end.

(** [validate_staging]: findings are only logged; it returns [True].
    The rows of this development always carry a state and a date (see
    [raw_cpi] and [cpi_monthly]), so the first two counts of the NULL query
    are 0 here: raw data with a NULL state or date is outside the model, and
    what is proved about the NULL warning is only that a NULL index always
    raises it, which holds whatever the other two counts are. *)
Definition validate_staging (env : staging_env) : PyM staging_world bool :=
  raw_count <- read_sql env "raw_count" (fun w => Ok (length (raw_cpi_data w))) ;;
  stg_count <- read_sql env "stg_count"
                 (fun w => let* t := staging_table w in Ok (length t)) ;;
  (if negb (Nat.eqb raw_count stg_count)
   then log_warning (RowCountMismatch raw_count stg_count) else pret tt) ;;;
  nulls <- read_sql env "nulls"
             (fun w => let* t := staging_table w in
                       Ok (0, 0, length (filter is_null_index t))) ;;
  (let '(null_state, null_date, null_index) := nulls in
   if Nat.ltb 0 (null_state + null_date + null_index)
   then log_warning (NullsFound null_state null_date null_index) else pret tt) ;;;
  pret true.

(** [run_all]: any exception is logged and turned into [False]. *)
Definition staging_run_all (env : staging_env) : PyM staging_world bool :=
  ptry (cat_count <- transform_categories env ;;
        cpi_count <- transform_cpi_monthly_method env ;;
        validate_staging env ;;;
        pret true)
       (fun _ => pret false).

(** The queries [run_all] of the staging transformer reads with
    [pd.read_sql] and the tables it writes with [df.to_sql], in order. *)
Definition staging_reads : list string :=
  ["categories"; "cpi_monthly"; "raw_count"; "stg_count"; "nulls"].

Definition staging_writes : list string := ["categories"; "cpi_monthly"].

(** ** Airflow tasks ([cpi_data_pipeline]) *)

(** [load_to_database]: both raw tables with [if_exists='replace'], CPI
    data first (the data frames read back from the parquet snapshots have
    [cpi_count] and [cat_count] rows); it returns both counts. *)
Definition load_to_database (env : loader_env) (cpi_count cat_count : nat)
  : PyM warehouse (nat * nat) :=
  c1 <- load_to_raw env Replace "cpi_data" cpi_count ;;
  c2 <- load_to_raw env Replace "categories" cat_count ;;
  pret (c1, c2).

(** [transform_staging] and [transform_mart]: they call [run_all] and drop
    its result. *)
Definition transform_staging_task (env : staging_env) : PyM staging_world unit :=
  _ <- staging_run_all env ;; pret tt.

Definition transform_mart_task (env : mart_env) : PyM mart_world unit :=
  _ <- mart_run_all env ;; pret tt.

(** ** Test inputs of the development *)

Definition overall_obs (st : string) (d : nat) (v : option Q) : cpi_monthly :=
  mk_cpi_monthly st d (Some "overall") "Overall" v.

(** The spec's Selangor scenario: overall index 100, 102, 101 for three
    consecutive months. *)
Definition selangor_rows : list cpi_monthly :=
  [overall_obs "Selangor" 3 (Some 101%Q); overall_obs "Selangor" 1 (Some 100%Q);
   overall_obs "Selangor" 2 (Some 102%Q)].

Definition result_or_nil {A} (r : result (list A)) : list A :=
  match r with Ok l => l | Raise _ => [] end.

Definition selangor_out : list inflation_by_state_row :=
  result_or_nil (inflation_by_state selangor_rows).

(** A preceding observation whose index value is NULL. *)
Definition selangor_null_rows : list cpi_monthly :=
  [overall_obs "Selangor" 1 (Some 100%Q); overall_obs "Selangor" 2 None;
   overall_obs "Selangor" 3 (Some 101%Q)].

(** Fourteen consecutive months, the last with a NULL index value. *)
Definition gapless_null_rows : list cpi_monthly :=
  map (fun d => overall_obs "Johor" d (if d =? 14 then None else Some 100%Q))
      (seq 1 14).

Definition gapless_null_out : list inflation_by_state_row :=
  result_or_nil (inflation_by_state gapless_null_rows).

Definition snapshot_obs (st : string) (d : nat) (div : string) (v : Q)
  : cpi_monthly :=
  mk_cpi_monthly st d (Some div) "Overall" (Some v).

(** The spec's scenario: A 120, B 100, C 110 on the latest date, with an
    older observation that the snapshot ignores. *)
Definition abc_rows : list cpi_monthly :=
  [snapshot_obs "A" 7 "overall" 120; snapshot_obs "B" 7 "overall" 100;
   snapshot_obs "C" 7 "overall" 110; snapshot_obs "A" 6 "overall" 90;
   snapshot_obs "B" 7 "01" 130].

Definition abc_states : list state_dim :=
  [mk_state_dim "A" (Some "Central"); mk_state_dim "B" (Some "North")].

Definition abc_out : list state_comparison_row :=
  result_or_nil (state_comparison abc_rows abc_states).

(** Dense ranking as the claim words it: one plus the number of distinct
    values strictly above. *)
Definition dense_rank_of (keys : list Q) (k : Q) : nat :=
  S (length (dedup Qeq_bool (filter (fun k' => negb (Qle_bool k' k)) keys))).

Definition tie_rows : list cpi_monthly :=
  [snapshot_obs "A" 7 "overall" 120; snapshot_obs "B" 7 "overall" 120;
   snapshot_obs "C" 7 "overall" 100].

Definition positive_overall (o : state_comparison_row) : bool :=
  match overall_cpi o with Some x => negb (Qle_bool x 0) | None => true end.

Definition zero_rows : list cpi_monthly :=
  [snapshot_obs "A" 7 "overall" 0; snapshot_obs "B" 7 "overall" 100].

Definition negative_rows : list cpi_monthly :=
  [snapshot_obs "A" 7 "overall" (-1); snapshot_obs "B" 7 "overall" (-2)].

Definition cat_obs (st : string) (d : nat) (div : string) (cat : string)
  (v : option Q) : cpi_monthly :=
  mk_cpi_monthly st d (Some div) cat v.

(** Two states, two months; in division "02" the category name changes
    between the months, and one food observation has a NULL index. *)
Definition cat_rows : list cpi_monthly :=
  [cat_obs "X" 1 "01" "Food" (Some 100%Q); cat_obs "Y" 1 "01" "Food" None;
   cat_obs "X" 2 "01" "Food" (Some 110%Q); cat_obs "Y" 2 "01" "Food" (Some 130%Q);
   cat_obs "X" 1 "02" "Alcohol" (Some 100%Q);
   cat_obs "X" 2 "02" "Tobacco" (Some 150%Q);
   cat_obs "X" 1 "overall" "Overall" (Some 100%Q);
   mk_cpi_monthly "X" 1 None "Overall" (Some 1%Q)].

Definition cat_out : list inflation_by_category_row :=
  result_or_nil (inflation_by_category cat_rows).

(** The staging row a raw observation becomes when at most one category
    row matches it. *)
Definition joined_row (cats : list raw_category) (c : raw_cpi) : cpi_monthly :=
  mk_cpi_monthly (raw_state c) (raw_date c) (raw_division c)
    (match find (category_matches c) cats with
     | Some cat => coalesce (desc_en cat) "Overall"
     | None => "Overall"
     end)
    (raw_index c).

Definition raw_rows : list raw_cpi :=
  [mk_raw_cpi "Johor" 1 (Some "overall") (Some 130%Q);
   mk_raw_cpi "Johor" 1 (Some "01") (Some 150%Q);
   mk_raw_cpi "Kedah" 1 (Some "01") (Some 148%Q);
   mk_raw_cpi "Kedah" 1 None (Some 1%Q)].

Definition raw_cats : list raw_category :=
  [mk_raw_category (Some "01") (Some "Food & Beverages") (Some "Makanan") (Some 2);
   mk_raw_category (Some "011") (Some "Food") (Some "Makanan") (Some 3);
   mk_raw_category (Some "01") (Some "Food (3-digit)") None (Some 3)].

(** The audit rows an INSERT into raw.load_metadata leaves behind. *)
Definition audit_written (env : loader_env) (r : audit_rec) : list audit_rec :=
  match metadata_error env with None => [r] | Some _ => [] end.

Definition audit_down_env : loader_env :=
  mk_loader_env (fun _ => None) (Some "relation raw.load_metadata does not exist").

Definition empty_warehouse : warehouse := mk_warehouse [] [].

(** The exception a [build_*] method raises for query result [q], if any. *)
Definition derivation_error {R} (env : mart_env) (name : string)
  (q : result (list R)) : option string :=
  match read_error env name with
  | Some e => Some e
  | None => match q with Raise e => Some e | Ok _ => write_error env name end
  end.

Definition result_to_option {A} (r : result A) : option A :=
  match r with Ok a => Some a | Raise _ => None end.

Definition upload_succeeds (o : upload_outcome) : bool :=
  match o with UploadOk => true | _ => false end.

(** The snapshot of the CPI extract is missing; the categories snapshot is
    present and its upload fails with boto3's [S3UploadFailedError]. *)
Definition transfer_failure_env : s3_env :=
  mk_s3_env (fun _ _ => OtherErr "S3UploadFailedError: Failed to upload data/raw/categories.parquet")
            "2025-06-01".

Definition cpi_snapshot_missing : fs_world :=
  mk_fs_world ["data/raw/categories.parquet"] [] [].

Definition all_ok_staging_env : staging_env :=
  mk_staging_env (fun _ => None) (fun _ => None).
Definition all_ok_loader_env : loader_env := mk_loader_env (fun _ => None) None.


(** A second level-2 category row for division "01" and a NULL index. *)
Definition dup_cats : list raw_category :=
  raw_cats ++ [mk_raw_category (Some "01") (Some "Food (duplicate)") None (Some 2)].

Definition raw_rows_null : list raw_cpi :=
  raw_rows ++ [mk_raw_cpi "Perlis" 1 (Some "02") None].

Definition dup_staging_world : staging_world :=
  mk_staging_world raw_rows_null dup_cats None None [].

Definition cpi_loaded_warehouse : warehouse := mk_warehouse [("cpi_data", 2)] [].

Definition both_snapshots : fs_world :=
  mk_fs_world ["data/raw/cpi_latest.parquet"; "data/raw/categories.parquet"] [] [].

(** The upload of the categories snapshot is refused with a [ClientError]. *)
Definition access_denied_env : s3_env :=
  mk_s3_env (fun l _ => if String.eqb l "data/raw/categories.parquet"
                        then ClientErr "AccessDenied" else UploadOk)
            "2025-06-01".

(** ** Generic facts about the embedding *)

Lemma mapM_Ok_nth {A B} (f : A -> result B) (l : list A) (out : list B) :
  mapM f l = Ok out ->
  length out = length l /\
  forall i x, nth_error l i = Some x ->
    exists y, nth_error out i = Some y /\ f x = Ok y.
Proof.
  revert out; induction l as [|a l IH]; intros out H; simpl in H.
  - inversion H; subst; split; [reflexivity|]. intros [|i] x Hx; discriminate.
  - destruct (f a) as [b|e] eqn:Ef; [|discriminate].
    simpl in H; destruct (mapM f l) as [bs|e] eqn:Em; [|discriminate].
    simpl in H; inversion H; subst; clear H.
    destruct (IH bs eq_refl) as [Hlen Hnth]. split.
    + simpl; f_equal; exact Hlen.
    + intros [|i] x Hx; simpl in Hx |- *.
      * inversion Hx; subst. exists b; auto.
      * apply Hnth; exact Hx.
Qed.

Lemma mapM_Ok_In {A B} (f : A -> result B) (l : list A) (out : list B) x :
  mapM f l = Ok out -> In x l -> exists y, f x = Ok y /\ In y out.
Proof.
  intros H Hin. destruct (mapM_Ok_nth f l out H) as [_ Hnth].
  destruct (In_nth_error l x Hin) as [n Hn].
  destruct (Hnth n x Hn) as [y [Hy Hf]].
  exists y; split; [exact Hf | eapply nth_error_In; exact Hy].
Qed.

Lemma nth_error_combine_seq {A} (l : list A) k i :
  nth_error (combine (seq k (length l)) l) i
  = option_map (fun x => ((k + i)%nat, x)) (nth_error l i).
Proof.
  revert k i; induction l as [|a l IH]; intros k [|i]; simpl; auto.
  - rewrite Nat.add_0_r; reflexivity.
  - rewrite IH. destruct (nth_error l i); simpl; auto.
    rewrite Nat.add_succ_r; reflexivity.
Qed.

Lemma nth_error_indexed {A} (l : list A) i :
  nth_error (indexed l) i = option_map (fun x => (i, x)) (nth_error l i).
Proof. unfold indexed; apply (nth_error_combine_seq l 0 i). Qed.

Lemma In_insert_str x y l : In y (insert_str x l) <-> x = y \/ In y l.
Proof.
  induction l as [|z l IH]; simpl.
  - tauto.
  - destruct (String.eqb_spec x z) as [->|Hne].
    + simpl; tauto.
    + destruct (String.ltb x z); simpl; [tauto|]. rewrite IH; tauto.
Qed.

Lemma In_distinct_sorted y l : In y (distinct_sorted l) <-> In y l.
Proof.
  induction l as [|x l IH]; simpl; [tauto|].
  rewrite In_insert_str, IH; tauto.
Qed.

Lemma In_insert_with {A} (lt : A -> A -> bool) x y l :
  In y (insert_with lt x l) <-> x = y \/ In y l.
Proof.
  induction l as [|z l IH]; simpl; [tauto|].
  destruct (lt x z); simpl; [tauto|]. rewrite IH; tauto.
Qed.

Lemma In_sort_with {A} (lt : A -> A -> bool) y l :
  In y (sort_with lt l) <-> In y l.
Proof.
  induction l as [|x l IH]; simpl; [tauto|].
  rewrite In_insert_with, IH; tauto.
Qed.

Lemma Permutation_insert_with {A} (lt : A -> A -> bool) x l :
  Permutation (insert_with lt x l) (x :: l).
Proof.
  induction l as [|z l IH]; simpl; [auto|].
  destruct (lt x z); [auto|].
  eapply perm_trans; [apply perm_skip, IH|apply perm_swap].
Qed.

Lemma Permutation_sort_with {A} (lt : A -> A -> bool) l :
  Permutation (sort_with lt l) l.
Proof.
  induction l as [|x l IH]; simpl; [auto|].
  eapply perm_trans; [apply Permutation_insert_with|apply perm_skip, IH].
Qed.

Lemma Permutation_length_filter {A} (f : A -> bool) l1 l2 :
  Permutation l1 l2 -> length (filter f l1) = length (filter f l2).
Proof.
  induction 1 as [|x l1 l2 _ IH|x y l|l1 l2 l3 _ IH1 _ IH2]; simpl.
  - reflexivity.
  - destruct (f x); simpl; auto.
  - destruct (f x), (f y); reflexivity.
  - congruence.
Qed.

(** The value written by the percentage-change CASE expression. *)
Lemma pct_change_Ok cur prev v :
  pct_change cur prev = Ok v ->
  v = match prev, cur with
      | Some p, Some x => Some ((x / p - 1) * 100)%Q
      | _, _ => None
      end.
Proof.
  unfold pct_change, sql_div.
  destruct prev as [p|], cur as [x|]; simpl; intro H; try (inversion H; reflexivity).
  destruct (Qeq_bool p 0); simpl in H; inversion H; reflexivity.
Qed.

(** ** inflation_by_state: per-partition and whole-table structure *)

Lemma state_partition_rows_nth series out :
  state_partition_rows series = Ok out ->
  length out = length series /\
  forall i r, nth_error series i = Some r ->
    exists o, nth_error out i = Some o /\
      ibs_state o = state r /\ ibs_date o = date r /\
      ibs_index_value o = index_value r /\
      pct_change (index_value r) (lag 1 (map index_value series) i)
        = Ok (mom_change o) /\
      pct_change (index_value r) (lag 12 (map index_value series) i)
        = Ok (yoy_change o) /\
      pct_change (index_value r) (lag 12 (map index_value series) i)
        = Ok (inflation_rate o).
Proof.
  unfold state_partition_rows; intro H.
  destruct (mapM_Ok_nth _ _ _ H) as [Hlen Hnth]. split.
  - rewrite Hlen; unfold indexed. rewrite length_combine, length_seq.
    apply Nat.min_id.
  - intros i r Hr.
    assert (Hi : nth_error (indexed series) i = Some (i, r))
      by (rewrite nth_error_indexed, Hr; reflexivity).
    destruct (Hnth _ _ Hi) as [o [Ho Hf]]. exists o; split; [exact Ho|].
    simpl in Hf.
    destruct (pct_change (index_value r) (lag 1 (map index_value series) i))
      as [mom|] eqn:E1; [|discriminate]; simpl in Hf.
    destruct (pct_change (index_value r) (lag 12 (map index_value series) i))
      as [yoy|] eqn:E2; [|discriminate]; simpl in Hf.
    inversion Hf; subst; simpl; auto 7.
Qed.

Lemma state_series_In rows st r :
  In r (state_series rows st) ->
  In r rows /\ state r = st /\ sql_eq_lit (division r) "overall" = true.
Proof.
  unfold state_series; rewrite In_sort_with, filter_In.
  intros [Hin Hb]; apply andb_prop in Hb as [Hs Hd].
  apply String.eqb_eq in Hs; auto.
Qed.

Lemma state_series_overall_states rows st r :
  In r (state_series rows st) -> In st (overall_states rows).
Proof.
  intro H; destruct (state_series_In _ _ _ H) as [Hin [Hs Hd]].
  unfold overall_states; rewrite In_distinct_sorted, in_map_iff.
  exists r; split; [exact Hs|]. apply filter_In; auto.
Qed.

(** Every state's partition is computed and written as one contiguous block
    of the result set. *)
Lemma inflation_by_state_segment rows out st :
  inflation_by_state rows = Ok out ->
  exists pre out_st post,
    out = pre ++ out_st ++ post /\
    state_partition_rows (state_series rows st) = Ok out_st.
Proof.
  unfold inflation_by_state; intro H.
  destruct (mapM _ (overall_states rows)) as [parts|e] eqn:Em;
    simpl in H; [|discriminate]. inversion H; subst; clear H.
  destruct (state_series rows st) as [|r0 rs] eqn:Es.
  - exists (concat parts), [], []; split; [rewrite app_nil_r; reflexivity|].
    reflexivity.
  - assert (Hst : In st (overall_states rows)).
    { apply (state_series_overall_states rows st r0); rewrite Es; left; auto. }
    destruct (mapM_Ok_In _ _ _ st Em Hst) as [y [Hy Hin]].
    destruct (in_split _ _ Hin) as [l1 [l2 ->]].
    exists (concat l1), y, (concat l2); split.
    + rewrite concat_app; simpl; reflexivity.
    + rewrite <- Es; exact Hy.
Qed.

Lemma mapM_Ok_In_out {A B} (f : A -> result B) (l : list A) (out : list B) y :
  mapM f l = Ok out -> In y out -> exists x, In x l /\ f x = Ok y.
Proof.
  intros H Hy. destruct (mapM_Ok_nth f l out H) as [Hlen Hnth].
  destruct (In_nth_error out y Hy) as [n Hn].
  destruct (nth_error l n) as [x|] eqn:Hx.
  - destruct (Hnth n x Hx) as [y' [Hy' Hf]]. rewrite Hn in Hy'.
    inversion Hy'; subst. exists x; split; [eapply nth_error_In; eauto | auto].
  - apply nth_error_None in Hx. assert (n < length out) by
      (apply nth_error_Some; rewrite Hn; discriminate). lia.
Qed.

(** Every written row carries [inflation_rate = yoy_change]. *)
Lemma inflation_by_state_rate_is_yoy rows out o :
  inflation_by_state rows = Ok out -> In o out -> inflation_rate o = yoy_change o.
Proof.
  unfold inflation_by_state; intros H Ho.
  destruct (mapM _ (overall_states rows)) as [parts|e] eqn:Em;
    simpl in H; [|discriminate]. inversion H; subst; clear H.
  apply in_concat in Ho as [part [Hpart Ho]].
  destruct (mapM_Ok_In_out _ _ _ _ Em Hpart) as [st [_ Hst]].
  destruct (state_partition_rows_nth _ _ Hst) as [Hlen Hnth].
  destruct (In_nth_error _ _ Ho) as [i Hi].
  assert (Hlt : i < length (state_series rows st)).
  { rewrite <- Hlen; apply nth_error_Some; rewrite Hi; discriminate. }
  destruct (nth_error (state_series rows st) i) as [r|] eqn:Hr;
    [|apply nth_error_None in Hr; lia].
  destruct (Hnth i r Hr) as [o' [Ho' [_ [_ [_ [_ [Hy Hinf]]]]]]].
  rewrite Hi in Ho'; inversion Ho'; subst.
  rewrite Hy in Hinf; inversion Hinf; reflexivity.
Qed.

(** ** Test data *)

Example selangor_mom :
  map (fun o => (ibs_date o, option_map (fun q => Qeq_bool q ((101 / 102 - 1) * 100)%Q) (mom_change o))) selangor_out
  = [(1, None); (2, Some false); (3, Some true)].
Proof. vm_compute. reflexivity. Qed.

(** ** Claims about mart.inflation_by_state *)

(** C1 (amended).  Whenever the query succeeds, each state's date-ordered
    partition is written as one block; in it, the row at position [i] has
    [mom_change] NULL when [i = 0], and otherwise equal to
    [((x / p) - 1) * 100] where [x] is its own index value and [p] the index
    value of the immediately preceding row of the partition, NULL exactly
    when one of the two index values is NULL. *)
Theorem inflation_by_state_mom_change rows out st
  (Hq : inflation_by_state rows = Ok out) :
  exists pre out_st post,
    out = pre ++ out_st ++ post /\
    length out_st = length (state_series rows st) /\
    forall i r o,
      nth_error (state_series rows st) i = Some r ->
      nth_error out_st i = Some o ->
      ibs_state o = st /\ ibs_date o = date r /\
      match i with
      | 0 => mom_change o = None
      | S j =>
          forall rp, nth_error (state_series rows st) j = Some rp ->
          mom_change o = match index_value rp, index_value r with
                         | Some p, Some x => Some ((x / p - 1) * 100)%Q
                         | _, _ => None
                         end
      end.
Proof.
  destruct (inflation_by_state_segment rows out st Hq)
    as [pre [out_st [post [Hout Hpart]]]].
  destruct (state_partition_rows_nth _ _ Hpart) as [Hlen Hnth].
  exists pre, out_st, post; split; [exact Hout|]; split; [exact Hlen|].
  intros i r o Hr Ho.
  destruct (Hnth i r Hr) as [o' [Ho' [Hs [Hd [_ [Hmom _]]]]]].
  rewrite Ho in Ho'; inversion Ho'; subst o'; clear Ho'.
  split; [rewrite Hs; apply (state_series_In rows st r), (nth_error_In _ i Hr)|].
  split; [exact Hd|].
  apply pct_change_Ok in Hmom. rewrite Hmom.
  destruct i as [|j]; [reflexivity|].
  intros rp Hrp. unfold lag; simpl. rewrite Nat.sub_0_r, nth_error_map, Hrp.
  reflexivity.
Qed.

Lemma inflation_by_state_mom_change_witness :
  inflation_by_state selangor_rows = Ok selangor_out /\
  exists pre out_st post,
    selangor_out = pre ++ out_st ++ post /\
    length out_st = length (state_series selangor_rows "Selangor") /\
    forall i r o,
      nth_error (state_series selangor_rows "Selangor") i = Some r ->
      nth_error out_st i = Some o ->
      ibs_state o = "Selangor" /\ ibs_date o = date r /\
      match i with
      | 0 => mom_change o = None
      | S j =>
          forall rp, nth_error (state_series selangor_rows "Selangor") j = Some rp ->
          mom_change o = match index_value rp, index_value r with
                         | Some p, Some x => Some ((x / p - 1) * 100)%Q
                         | _, _ => None
                         end
      end.
Proof.
  split; [vm_compute; reflexivity|].
  apply inflation_by_state_mom_change. vm_compute; reflexivity.
Defined.

(** C1 as stated fails: the observation of February exists but its index
    value is NULL, and March's [mom_change] is NULL. *)
Lemma inflation_by_state_mom_null_prev_cex :
  map date (state_series selangor_null_rows "Selangor") = [1; 2; 3] /\
  map (fun o => (ibs_date o, mom_change o))
      (result_or_nil (inflation_by_state selangor_null_rows))
  = [(1, None); (2, None); (3, None)] /\
  exists out, inflation_by_state selangor_null_rows = Ok out.
Proof.
  split; [vm_compute; reflexivity|]. split; [vm_compute; reflexivity|].
  eexists; vm_compute; reflexivity.
Qed.

(** C2 (amended).  Whenever the query succeeds, every row has
    [inflation_rate = yoy_change]; in each state's date-ordered partition,
    [yoy_change] is NULL for the first 12 rows, and from position 12 on it is
    [((x / p) - 1) * 100] against the index value [p] twelve rows earlier,
    NULL exactly when [x] or [p] is NULL. *)
Theorem inflation_by_state_yoy_change rows out st
  (Hq : inflation_by_state rows = Ok out) :
  (forall o, In o out -> inflation_rate o = yoy_change o) /\
  exists pre out_st post,
    out = pre ++ out_st ++ post /\
    length out_st = length (state_series rows st) /\
    forall i r o,
      nth_error (state_series rows st) i = Some r ->
      nth_error out_st i = Some o ->
      (i < 12 -> yoy_change o = None) /\
      (12 <= i ->
       forall rp, nth_error (state_series rows st) (i - 12) = Some rp ->
       yoy_change o = match index_value rp, index_value r with
                      | Some p, Some x => Some ((x / p - 1) * 100)%Q
                      | _, _ => None
                      end).
Proof.
  split; [intros o Ho; exact (inflation_by_state_rate_is_yoy rows out o Hq Ho)|].
  destruct (inflation_by_state_segment rows out st Hq)
    as [pre [out_st [post [Hout Hpart]]]].
  destruct (state_partition_rows_nth _ _ Hpart) as [Hlen Hnth].
  exists pre, out_st, post; split; [exact Hout|]; split; [exact Hlen|].
  intros i r o Hr Ho.
  destruct (Hnth i r Hr) as [o' [Ho' [_ [_ [_ [_ [Hyoy _]]]]]]].
  rewrite Ho in Ho'; inversion Ho'; subst o'; clear Ho'.
  apply pct_change_Ok in Hyoy. rewrite Hyoy. unfold lag. split.
  - intro Hi. apply Nat.ltb_lt in Hi. rewrite Hi. reflexivity.
  - intros Hi rp Hrp. apply Nat.ltb_ge in Hi. rewrite Hi, nth_error_map, Hrp.
    reflexivity.
Qed.

Lemma inflation_by_state_yoy_change_witness :
  inflation_by_state gapless_null_rows = Ok gapless_null_out /\
  (forall o, In o gapless_null_out -> inflation_rate o = yoy_change o) /\
  exists pre out_st post,
    gapless_null_out = pre ++ out_st ++ post /\
    length out_st = length (state_series gapless_null_rows "Johor") /\
    forall i r o,
      nth_error (state_series gapless_null_rows "Johor") i = Some r ->
      nth_error out_st i = Some o ->
      (i < 12 -> yoy_change o = None) /\
      (12 <= i ->
       forall rp, nth_error (state_series gapless_null_rows "Johor") (i - 12) = Some rp ->
       yoy_change o = match index_value rp, index_value r with
                      | Some p, Some x => Some ((x / p - 1) * 100)%Q
                      | _, _ => None
                      end).
Proof.
  split; [vm_compute; reflexivity|].
  apply inflation_by_state_yoy_change. vm_compute; reflexivity.
Defined.

(** C2 as stated fails: in a monthly, gapless series of fourteen months the
    13th row has a [yoy_change], but the 14th, whose index value is NULL,
    does not. *)
Lemma inflation_by_state_yoy_null_cex :
  map date (state_series gapless_null_rows "Johor") = seq 1 14 /\
  map (fun o => match yoy_change o with Some _ => true | None => false end)
      gapless_null_out
  = [false; false; false; false; false; false; false; false; false; false;
     false; false; true; false].
Proof. split; vm_compute; reflexivity. Qed.

(** ** Test data for mart.state_comparison *)

Example abc_ranks :
  map (fun o => (sc_state o, rank_overall o, region o)) abc_out
  = [("A", 1, Some "Central"); ("C", 2, None); ("B", 3, Some "North")].
Proof. vm_compute. reflexivity. Qed.

Example abc_pct :
  map (fun o => option_map (Qeq_bool 20) (pct_vs_cheapest o)) abc_out
  = [Some true; Some false; Some false] /\
  map (fun o => option_map (Qeq_bool 10) (pct_vs_cheapest o)) abc_out
  = [Some false; Some true; Some false] /\
  map (fun o => option_map (Qeq_bool 0) (pct_vs_cheapest o)) abc_out
  = [Some false; Some false; Some true].
Proof. vm_compute. repeat split; reflexivity. Qed.

(** ** Claims about mart.state_comparison *)

Lemma mapM_Ok_map {A B C} (f : A -> result B) (g : B -> C) (h : A -> C) l out :
  mapM f l = Ok out -> (forall x y, f x = Ok y -> g y = h x) ->
  map g out = map h l.
Proof.
  revert out; induction l as [|a l IH]; intros out H Hgh; simpl in H.
  - inversion H; reflexivity.
  - destruct (f a) as [b|] eqn:Ef; [|discriminate]; simpl in H.
    destruct (mapM f l) as [bs|] eqn:Em; [|discriminate]; simpl in H.
    inversion H; subst; simpl. rewrite (Hgh _ _ Ef), (IH bs eq_refl Hgh).
    reflexivity.
Qed.

Lemma length_filter_map {A B} (f : B -> bool) (g : A -> B) l :
  length (filter f (map g l)) = length (filter (fun x => f (g x)) l).
Proof.
  induction l as [|a l IH]; simpl; [reflexivity|].
  destruct (f (g a)); simpl; auto.
Qed.

(** Unfolding a successful [state_comparison]: the unsorted rows [out0]
    are produced one per joined row. *)
Lemma state_comparison_Ok rows states out :
  state_comparison rows states = Ok out ->
  exists out0,
    out = sort_with (fun a b => desc_before (overall_cpi a) (overall_cpi b)) out0 /\
    map overall_cpi out0
      = map (fun pr => p_overall_cpi (fst pr))
            (flat_map (join_region states) (pivoted rows)) /\
    forall o, In o out0 ->
      exists p reg,
        In (p, reg) (flat_map (join_region states) (pivoted rows)) /\
        overall_cpi o = p_overall_cpi p /\
        rank_overall o
          = sql_rank (map (fun pr => p_overall_cpi (fst pr))
                          (flat_map (join_region states) (pivoted rows)))
                     (p_overall_cpi p) /\
        pct_vs_cheapest o
          = match p_overall_cpi p,
                  sql_min (map (fun pr => p_overall_cpi (fst pr))
                               (flat_map (join_region states) (pivoted rows)))
            with
            | Some x, Some c => Some ((x / c - 1) * 100)%Q
            | _, _ => None
            end.
Proof.
  unfold state_comparison; intro H.
  set (jr := flat_map (join_region states) (pivoted rows)) in *.
  set (keys := map (fun pr => p_overall_cpi (fst pr)) jr) in *.
  destruct (mapM _ jr) as [out0|] eqn:Em; simpl in H; [|discriminate].
  inversion H; subst; clear H. exists out0; split; [reflexivity|]. split.
  - apply (mapM_Ok_map _ _ _ _ _ Em). intros [p reg] y Hf; simpl in Hf.
    destruct (sql_div (p_overall_cpi p) (sql_min keys)); simpl in Hf;
      inversion Hf; reflexivity.
  - intros o Ho. destruct (mapM_Ok_In_out _ _ _ _ Em Ho) as [[p reg] [Hin Hf]].
    exists p, reg; split; [exact Hin|]. simpl in Hf.
    destruct (sql_div (p_overall_cpi p) (sql_min keys)) as [q|] eqn:Ed;
      simpl in Hf; [|discriminate]. inversion Hf; subst; clear Hf; simpl.
    unfold sql_div in Ed.
    destruct (p_overall_cpi p) as [x|], (sql_min keys) as [c|];
      try (inversion Ed; subst; repeat split; reflexivity).
    destruct (Qeq_bool c 0); inversion Ed; subst; repeat split; reflexivity.
Qed.

(** C3 (amended).  [rank_overall] is SQL [RANK()] by descending
    [overall_cpi]: one plus the number of snapshot rows whose [overall_cpi]
    sorts strictly before (is larger, NULLs counting as largest).  Tied rows
    share a rank and the next rank skips past the tie. *)
Theorem state_comparison_rank rows states out
  (Hq : state_comparison rows states = Ok out) :
  forall o, In o out ->
    rank_overall o
    = S (length (filter (fun o' => desc_before (overall_cpi o') (overall_cpi o))
                        out)).
Proof.
  intros o Ho.
  destruct (state_comparison_Ok _ _ _ Hq) as [out0 [Hout [Hkeys Hrows]]].
  assert (Ho0 : In o out0) by (rewrite Hout, In_sort_with in Ho; exact Ho).
  destruct (Hrows o Ho0) as [p [reg [_ [Hov [Hrank _]]]]].
  rewrite Hrank, <- Hov, <- Hkeys. unfold sql_rank. f_equal.
  rewrite length_filter_map, Hout.
  symmetry; apply Permutation_length_filter, Permutation_sort_with.
Qed.

Lemma state_comparison_rank_witness :
  state_comparison abc_rows abc_states = Ok abc_out /\
  map (fun o => (sc_state o, rank_overall o)) abc_out
  = [("A", 1); ("C", 2); ("B", 3)] /\
  forall o, In o abc_out ->
    rank_overall o
    = S (length (filter (fun o' => desc_before (overall_cpi o') (overall_cpi o))
                        abc_out)).
Proof.
  split; [vm_compute; reflexivity|]. split; [vm_compute; reflexivity|].
  apply (state_comparison_rank abc_rows abc_states). vm_compute; reflexivity.
Defined.

(** C3 as stated fails: with A and B tied at 120 and C at 100, C's rank is
    3, whereas a dense ranking gives 2. *)
Lemma state_comparison_rank_not_dense_cex :
  map (fun o => (sc_state o, rank_overall o))
      (result_or_nil (state_comparison tie_rows []))
  = [("B", 1); ("A", 1); ("C", 3)] /\
  dense_rank_of [120; 120; 100]%Q 100%Q = 2.
Proof. split; vm_compute; reflexivity. Qed.

Lemma In_non_null x l : In x (non_null l) <-> In (Some x) l.
Proof.
  unfold non_null; rewrite in_flat_map. split.
  - intros [[y|] [Hy Hx]]; simpl in Hx; [destruct Hx as [<-|[]]; exact Hy|contradiction].
  - intro H; exists (Some x); simpl; auto.
Qed.

Lemma sql_min_None l x : sql_min l = None -> ~ In (Some x) l.
Proof.
  unfold sql_min; rewrite <- In_non_null.
  destruct (non_null l) as [|y ys]; simpl; [auto|].
  destruct (fold_right _ None ys); discriminate.
Qed.

Lemma sql_min_Some l c :
  sql_min l = Some c ->
  In (Some c) l /\ forall x, In (Some x) l -> (c <= x)%Q.
Proof.
  unfold sql_min. intro H.
  enough (Hs : In c (non_null l) /\ forall x, In x (non_null l) -> (c <= x)%Q).
  { destruct Hs as [Hc Hx]; split; [apply In_non_null; exact Hc|].
    intros x Hin; apply Hx, In_non_null; exact Hin. }
  revert c H; induction (non_null l) as [|y ys IH]; intros c H; simpl in H;
    [discriminate|].
  destruct (fold_right _ None ys) as [m|] eqn:Ef.
  - destruct (IH m eq_refl) as [Hm Hmin].
    destruct (Qle_bool y m) eqn:Hym; inversion H; subst; clear H.
    + apply Qle_bool_iff in Hym. split; [left; reflexivity|].
      intros x [<-|Hx]; [apply Qle_refl|]. eapply Qle_trans; [exact Hym|auto].
    + assert (Hmy : (c < y)%Q)
        by (apply Qnot_le_lt; intro Hle; apply Qle_bool_iff in Hle; congruence).
      split; [right; exact Hm|].
      intros x [<-|Hx]; [apply Qlt_le_weak; exact Hmy|auto].
  - inversion H; subst; clear H.
    assert (ys = []) as ->.
    { destruct ys as [|z zs]; [reflexivity|]. simpl in Ef.
      destruct (fold_right _ None zs); discriminate. }
    split; [left; reflexivity|]. intros x [<-|[]]; apply Qle_refl.
Qed.

(** The percentage formula against a positive minimum [c]. *)
Lemma pct_formula_nonneg_zero (x c : Q) :
  (0 < c)%Q -> (c <= x)%Q ->
  (0 <= (x / c - 1) * 100)%Q /\ ((x / c - 1) * 100 == 0 <-> x == c)%Q.
Proof.
  intros Hc Hcx. unfold Qdiv.
  assert (Hic : (0 < / c)%Q) by (apply Qinv_lt_0_compat; exact Hc).
  assert (Hcne : ~ (c == 0)%Q) by (intro E; rewrite E in Hc; discriminate).
  assert (H1 : (c * / c == 1)%Q) by (apply Qmult_inv_r; exact Hcne).
  assert (Hle : (c * / c <= x * / c)%Q) by (apply Qmult_le_r; auto).
  split; [lra|]. split.
  - intro H0. assert (Hx1 : (x * / c == 1)%Q) by lra.
    assert (E : (x == (x * / c) * c)%Q).
    { rewrite <- Qmult_assoc, (Qmult_comm (/ c) c), H1, Qmult_1_r.
      reflexivity. }
    rewrite E, Hx1, Qmult_1_l; reflexivity.
  - intro E. rewrite E, H1. lra.
Qed.

Lemma pct_formula_mono (x1 x2 c : Q) :
  (0 < c)%Q -> (x1 <= x2)%Q -> ((x1 / c - 1) * 100 <= (x2 / c - 1) * 100)%Q.
Proof.
  intros Hc H12. unfold Qdiv.
  assert (Hic : (0 < / c)%Q) by (apply Qinv_lt_0_compat; exact Hc).
  assert (H : (x1 * / c <= x2 * / c)%Q) by (apply Qmult_le_r; auto).
  lra.
Qed.

(** Each row's percentage is taken against the snapshot minimum [c]. *)
Lemma state_comparison_cheapest rows states out
  (Hq : state_comparison rows states = Ok out) o :
  In o out ->
  match overall_cpi o with
  | None => pct_vs_cheapest o = None
  | Some x =>
      exists c,
        (exists o0, In o0 out /\ overall_cpi o0 = Some c) /\
        (forall o' x', In o' out -> overall_cpi o' = Some x' -> (c <= x')%Q) /\
        pct_vs_cheapest o = Some ((x / c - 1) * 100)%Q
  end.
Proof.
  intro Ho.
  destruct (state_comparison_Ok _ _ _ Hq) as [out0 [Hout [Hkeys Hrows]]].
  assert (Hin : forall o', In o' out <-> In o' out0)
    by (intro o'; rewrite Hout; apply In_sort_with).
  set (keys := map (fun pr => p_overall_cpi (fst pr))
                   (flat_map (join_region states) (pivoted rows))) in *.
  assert (Hk : forall o' v, In o' out -> overall_cpi o' = v -> In v keys).
  { intros o' v Ho' Hv. rewrite <- Hkeys, <- Hv. apply in_map, Hin, Ho'. }
  destruct (Hrows o (proj1 (Hin o) Ho)) as [p [reg [_ [Hov [_ Hpct]]]]].
  rewrite Hpct, <- Hov.
  destruct (overall_cpi o) as [x|] eqn:Hx; [|reflexivity].
  destruct (sql_min keys) as [c|] eqn:Hmin.
  - destruct (sql_min_Some _ _ Hmin) as [Hc Hcmin]. exists c. split; [|split].
    + rewrite <- Hkeys in Hc. apply in_map_iff in Hc as [o0 [Ho0 Hin0]].
      exists o0; split; [apply Hin; exact Hin0|exact Ho0].
    + intros o' x' Ho' Hx'. apply Hcmin, (Hk o'); assumption.
    + reflexivity.
  - exfalso. apply (sql_min_None keys x Hmin), (Hk o); assumption.
Qed.

(** C4 (amended).  When every non-NULL [overall_cpi] of the snapshot is
    positive: a row with NULL [overall_cpi] gets NULL; otherwise
    [pct_vs_cheapest = ((overall_cpi / m) - 1) * 100] with [m] the smallest
    [overall_cpi] of the snapshot, it is non-negative, it is 0 exactly for the
    rows attaining the minimum, and it never decreases as [overall_cpi]
    grows. *)
Theorem state_comparison_pct_vs_cheapest rows states out
  (Hq : state_comparison rows states = Ok out)
  (Hpos : forall o x, In o out -> overall_cpi o = Some x -> (0 < x)%Q) :
  (forall o, In o out -> overall_cpi o = None -> pct_vs_cheapest o = None) /\
  (forall o x, In o out -> overall_cpi o = Some x ->
     exists m p,
       (exists o0, In o0 out /\ overall_cpi o0 = Some m) /\
       (forall o' x', In o' out -> overall_cpi o' = Some x' -> (m <= x')%Q) /\
       pct_vs_cheapest o = Some p /\ p = ((x / m - 1) * 100)%Q /\
       (0 <= p)%Q /\
       ((p == 0)%Q <->
        forall o' x', In o' out -> overall_cpi o' = Some x' -> (x <= x')%Q)) /\
  (forall o1 o2 x1 x2 p1 p2,
     In o1 out -> In o2 out ->
     overall_cpi o1 = Some x1 -> overall_cpi o2 = Some x2 ->
     pct_vs_cheapest o1 = Some p1 -> pct_vs_cheapest o2 = Some p2 ->
     (x1 <= x2)%Q -> (p1 <= p2)%Q).
Proof.
  split; [|split].
  - intros o Ho Hx. pose proof (state_comparison_cheapest _ _ _ Hq o Ho) as H.
    rewrite Hx in H; exact H.
  - intros o x Ho Hx. pose proof (state_comparison_cheapest _ _ _ Hq o Ho) as H.
    rewrite Hx in H. destruct H as [c [[o0 [Ho0 Hc0]] [Hcmin Hp]]].
    assert (Hcpos : (0 < c)%Q) by (apply (Hpos o0); assumption).
    destruct (pct_formula_nonneg_zero x c Hcpos (Hcmin o x Ho Hx)) as [Hnn Hz].
    exists c, ((x / c - 1) * 100)%Q.
    split; [exists o0; auto|]. split; [exact Hcmin|].
    split; [exact Hp|]. split; [reflexivity|]. split; [exact Hnn|].
    rewrite Hz. split.
    + intros E o' x' Ho' Hx'. rewrite E. apply (Hcmin o'); assumption.
    + intro Hall. apply Qle_antisym; [apply (Hall o0); assumption|].
      apply (Hcmin o); assumption.
  - intros o1 o2 x1 x2 p1 p2 Ho1 Ho2 Hx1 Hx2 Hp1 Hp2 H12.
    pose proof (state_comparison_cheapest _ _ _ Hq o1 Ho1) as H1.
    pose proof (state_comparison_cheapest _ _ _ Hq o2 Ho2) as H2.
    rewrite Hx1 in H1; rewrite Hx2 in H2.
    destruct H1 as [c1 [[o0 [Ho0 Hc0]] [Hmin1 Hq1]]].
    destruct H2 as [c2 [[o0' [Ho0' Hc0']] [Hmin2 Hq2]]].
    assert (E : (c1 == c2)%Q).
    { apply Qle_antisym; [apply (Hmin1 o0')|apply (Hmin2 o0)]; assumption. }
    rewrite Hp1 in Hq1; rewrite Hp2 in Hq2.
    inversion Hq1; inversion Hq2; subst.
    assert (Hcpos : (0 < c1)%Q) by (apply (Hpos o0); assumption).
    rewrite <- E. apply pct_formula_mono; assumption.
Qed.

Lemma positive_overall_ok out :
  forallb positive_overall out = true ->
  forall o x, In o out -> overall_cpi o = Some x -> (0 < x)%Q.
Proof.
  intros H o x Ho Hx. rewrite forallb_forall in H.
  specialize (H o Ho); unfold positive_overall in H; rewrite Hx in H.
  apply Qnot_le_lt; intro Hle; apply Qle_bool_iff in Hle; rewrite Hle in H.
  discriminate.
Qed.

Lemma state_comparison_pct_vs_cheapest_witness :
  state_comparison abc_rows abc_states = Ok abc_out /\
  (forall o x, In o abc_out -> overall_cpi o = Some x -> (0 < x)%Q) /\
  (forall o, In o abc_out -> overall_cpi o = None -> pct_vs_cheapest o = None) /\
  (forall o x, In o abc_out -> overall_cpi o = Some x ->
     exists m p,
       (exists o0, In o0 abc_out /\ overall_cpi o0 = Some m) /\
       (forall o' x', In o' abc_out -> overall_cpi o' = Some x' -> (m <= x')%Q) /\
       pct_vs_cheapest o = Some p /\ p = ((x / m - 1) * 100)%Q /\
       (0 <= p)%Q /\
       ((p == 0)%Q <->
        forall o' x', In o' abc_out -> overall_cpi o' = Some x' -> (x <= x')%Q)) /\
  (forall o1 o2 x1 x2 p1 p2,
     In o1 abc_out -> In o2 abc_out ->
     overall_cpi o1 = Some x1 -> overall_cpi o2 = Some x2 ->
     pct_vs_cheapest o1 = Some p1 -> pct_vs_cheapest o2 = Some p2 ->
     (x1 <= x2)%Q -> (p1 <= p2)%Q).
Proof.
  assert (Hq : state_comparison abc_rows abc_states = Ok abc_out)
    by (vm_compute; reflexivity).
  assert (Hpos : forall o x, In o abc_out -> overall_cpi o = Some x -> (0 < x)%Q)
    by (apply positive_overall_ok; vm_compute; reflexivity).
  split; [exact Hq|]. split; [exact Hpos|].
  exact (state_comparison_pct_vs_cheapest abc_rows abc_states abc_out Hq Hpos).
Defined.

(** C4 as stated fails: a snapshot whose minimum [overall_cpi] is 0 makes
    the query raise instead of producing percentages, and with a negative
    minimum the percentage decreases as [overall_cpi] grows (A at -1 gets
    -50, B at -2 gets 0). *)
Lemma state_comparison_pct_nonpositive_min_cex :
  state_comparison zero_rows [] = Raise "division by zero" /\
  map (fun o => (sc_state o, overall_cpi o,
                 option_map (Qeq_bool (-50)) (pct_vs_cheapest o),
                 option_map (Qeq_bool 0) (pct_vs_cheapest o)))
      (result_or_nil (state_comparison negative_rows []))
  = [("A", Some (-1)%Q, Some true, Some false);
     ("B", Some (-2)%Q, Some false, Some true)].
Proof. split; vm_compute; reflexivity. Qed.

(** ** Claims about mart.inflation_by_category *)

Lemma In_dedup_fold {A} (eqb : A -> A -> bool) x l acc :
  In x (fold_left (fun acc y => if existsb (eqb y) acc then acc else acc ++ [y])
                  l acc) ->
  In x acc \/ In x l.
Proof.
  revert acc; induction l as [|y l IH]; intros acc H; simpl in H; [auto|].
  destruct (IH _ H) as [Hacc|Hl]; [|right; right; exact Hl].
  destruct (existsb (eqb y) acc); [left; exact Hacc|].
  apply in_app_or in Hacc as [Hacc|[<-|[]]]; [left; exact Hacc|right; left; auto].
Qed.

Lemma In_dedup {A} (eqb : A -> A -> bool) x l : In x (dedup eqb l) -> In x l.
Proof.
  intro H; destruct (In_dedup_fold eqb x l [] H) as [[]|Hl]; exact Hl.
Qed.

Lemma opt_str_eqb_true a b : opt_str_eqb a b = true -> a = b.
Proof.
  destruct a, b; simpl; intro H; try discriminate; auto.
  apply String.eqb_eq in H; subst; reflexivity.
Qed.

Lemma key_eqb_refl k : key_eqb k k = true.
Proof.
  destruct k as [[d v] c]; simpl.
  rewrite Nat.eqb_refl, String.eqb_refl. destruct v; simpl;
    [rewrite String.eqb_refl|]; reflexivity.
Qed.

Lemma division_partition_rows_nth series out :
  division_partition_rows series = Ok out ->
  length out = length series /\
  forall i a, nth_error series i = Some a ->
    exists o, nth_error out i = Some o /\
      ibc_date o = ca_date a /\ ibc_division o = ca_division a /\
      ibc_category_name o = ca_category_name a /\
      avg_index o = ca_avg_index a /\
      pct_change (ca_avg_index a) (lag 1 (map ca_avg_index series) i)
        = Ok (ibc_mom_change o) /\
      pct_change (ca_avg_index a) (lag 12 (map ca_avg_index series) i)
        = Ok (ibc_yoy_change o).
Proof.
  unfold division_partition_rows; intro H.
  destruct (mapM_Ok_nth _ _ _ H) as [Hlen Hnth]. split.
  - rewrite Hlen; unfold indexed. rewrite length_combine, length_seq.
    apply Nat.min_id.
  - intros i a Ha.
    assert (Hi : nth_error (indexed series) i = Some (i, a))
      by (rewrite nth_error_indexed, Ha; reflexivity).
    destruct (Hnth _ _ Hi) as [o [Ho Hf]]. exists o; split; [exact Ho|].
    simpl in Hf.
    destruct (pct_change (ca_avg_index a) (lag 1 (map ca_avg_index series) i))
      as [mom|] eqn:E1; [|discriminate]; simpl in Hf.
    destruct (pct_change (ca_avg_index a) (lag 12 (map ca_avg_index series) i))
      as [yoy|] eqn:E2; [|discriminate]; simpl in Hf.
    inversion Hf; subst; simpl; auto 7.
Qed.

(** A row of [category_avg] is the AVG of a non-empty group of non-overall
    staging rows. *)
Lemma category_avg_In rows a :
  In a (category_avg rows) ->
  let k := (ca_date a, ca_division a, ca_category_name a) in
  ca_avg_index a = sql_avg (map index_value (category_group rows k)) /\
  category_group rows k <> [] /\
  sql_neq_lit (ca_division a) "overall" = true.
Proof.
  unfold category_avg; rewrite in_map_iff.
  intros [[[d v] c] [Ha Hk]]; subst a; simpl.
  split; [reflexivity|].
  apply In_dedup, in_map_iff in Hk as [r [Hr Hsrc]].
  assert (Hg : In r (category_group rows (d, v, c))).
  { unfold category_group; apply filter_In; split; [exact Hsrc|].
    rewrite Hr; apply key_eqb_refl. }
  split; [intro E; rewrite E in Hg; contradiction|].
  unfold category_source in Hsrc; apply filter_In in Hsrc as [_ Hne].
  unfold group_key in Hr; inversion Hr; subst; exact Hne.
Qed.

Lemma sql_avg_all_present (l : list (option Q)) :
  l <> [] -> (forall v, In v l -> v <> None) ->
  sql_avg l
  = Some (fold_right Qplus 0 (non_null l) / inject_Z (Z.of_nat (length l)))%Q.
Proof.
  intros Hne Hall.
  assert (Hlen : length (non_null l) = length l).
  { clear Hne; induction l as [|[x|] l IH]; simpl; [reflexivity| |].
    - f_equal; apply IH; intros v Hv; apply Hall; right; exact Hv.
    - exfalso; apply (Hall None); [left|]; reflexivity. }
  unfold sql_avg. destruct (non_null l) as [|y ys] eqn:E.
  - destruct l; [contradiction|discriminate].
  - rewrite <- Hlen; reflexivity.
Qed.

(** C5 (amended).  Every row of the result, for a (date, division,
    category_name) group of non-overall staging rows, has [avg_index] equal
    to the SQL AVG of the group's index values: the mean of its non-NULL
    values, which is the mean over all rows of the group when none is NULL.
    Its [mom_change] and [yoy_change] compare [avg_index] with the row 1 and
    12 positions earlier in the date-ordered partition of all
    [category_avg] rows of the same division, whatever their category
    name. *)
Theorem inflation_by_category_rows rows out
  (Hq : inflation_by_category rows = Ok out) :
  forall o, In o out ->
    let grp := category_group rows (ibc_date o, ibc_division o, ibc_category_name o) in
    let s := division_series (category_avg rows) (ibc_division o) in
    sql_neq_lit (ibc_division o) "overall" = true /\
    grp <> [] /\
    avg_index o = sql_avg (map index_value grp) /\
    ((forall r, In r grp -> index_value r <> None) ->
     avg_index o
     = Some (fold_right Qplus 0 (non_null (map index_value grp))
             / inject_Z (Z.of_nat (length grp)))%Q) /\
    exists i a,
      nth_error s i = Some a /\
      ca_date a = ibc_date o /\ ca_category_name a = ibc_category_name o /\
      ca_avg_index a = avg_index o /\
      match i with
      | 0 => ibc_mom_change o = None
      | S j => forall ap, nth_error s j = Some ap ->
          ibc_mom_change o = match ca_avg_index ap, avg_index o with
                             | Some p, Some x => Some ((x / p - 1) * 100)%Q
                             | _, _ => None
                             end
      end /\
      (i < 12 -> ibc_yoy_change o = None) /\
      (12 <= i -> forall ap, nth_error s (i - 12) = Some ap ->
          ibc_yoy_change o = match ca_avg_index ap, avg_index o with
                             | Some p, Some x => Some ((x / p - 1) * 100)%Q
                             | _, _ => None
                             end).
Proof.
  intros o Ho. unfold inflation_by_category in Hq.
  destruct (mapM _ (dedup opt_str_eqb (map ca_division (category_avg rows))))
    as [parts|] eqn:Em; simpl in Hq; [|discriminate].
  inversion Hq; subst out; clear Hq.
  apply In_sort_with, in_concat in Ho as [part [Hpart Ho]].
  destruct (mapM_Ok_In_out _ _ _ _ Em Hpart) as [v [_ Hv]].
  destruct (division_partition_rows_nth _ _ Hv) as [Hlen Hnth].
  destruct (In_nth_error _ _ Ho) as [i Hi].
  assert (Hlt : i < length (division_series (category_avg rows) v)).
  { rewrite <- Hlen; apply nth_error_Some; rewrite Hi; discriminate. }
  destruct (nth_error (division_series (category_avg rows) v) i) as [a|] eqn:Ha;
    [|apply nth_error_None in Ha; lia].
  destruct (Hnth i a Ha) as [o' [Ho' [Hd [Hdiv [Hc [Havg [Hmom Hyoy]]]]]]].
  rewrite Hi in Ho'; inversion Ho'; subst o'; clear Ho'.
  assert (Hain : In a (division_series (category_avg rows) v))
    by (eapply nth_error_In; exact Ha).
  unfold division_series in Hain; rewrite In_sort_with, filter_In in Hain.
  destruct Hain as [Hain Hv'].
  apply opt_str_eqb_true in Hv'. rewrite Hdiv, Hv'.
  destruct (category_avg_In rows a Hain) as [Ha_avg [Hne Hnov]].
  rewrite <- Hd, <- Hc, Hv' in Ha_avg, Hne. rewrite Hv' in Hnov.
  simpl. split; [exact Hnov|]. split; [exact Hne|].
  rewrite Havg, Ha_avg. split; [reflexivity|]. split.
  - intro Hall. rewrite <- (length_map index_value). apply sql_avg_all_present.
    + destruct (category_group _ _); [contradiction|discriminate].
    + intros w Hw. apply in_map_iff in Hw as [r [<- Hr]]. apply Hall, Hr.
  - exists i, a. split; [exact Ha|]. split; [symmetry; exact Hd|].
    split; [symmetry; exact Hc|]. split; [exact Ha_avg|].
    apply pct_change_Ok in Hmom. apply pct_change_Ok in Hyoy.
    rewrite Hmom, Hyoy, Ha_avg. unfold lag. split; [|split].
    + destruct i as [|j]; [reflexivity|].
      intros ap Hap. simpl. rewrite Nat.sub_0_r, nth_error_map, Hap. reflexivity.
    + intro Hi12. apply Nat.ltb_lt in Hi12. rewrite Hi12. reflexivity.
    + intros Hi12 ap Hap. apply Nat.ltb_ge in Hi12.
      rewrite Hi12, nth_error_map, Hap. reflexivity.
Qed.

(** ** Test data for mart.inflation_by_category *)

(** The lag runs across category names inside one division: the "Tobacco"
    row of month 2 is compared with the "Alcohol" row of month 1. *)
Example cat_lag_across_names :
  map (fun o => (ibc_date o, ibc_division o, ibc_category_name o,
                 option_map (Qeq_bool 50) (ibc_mom_change o)))
      cat_out
  = [(1, Some "01", "Food", None); (1, Some "02", "Alcohol", None);
     (2, Some "01", "Food", Some false); (2, Some "02", "Tobacco", Some true)].
Proof. vm_compute. reflexivity. Qed.

Lemma inflation_by_category_rows_witness :
  inflation_by_category cat_rows = Ok cat_out /\
  (forall o, In o cat_out ->
    let grp := category_group cat_rows (ibc_date o, ibc_division o, ibc_category_name o) in
    let s := division_series (category_avg cat_rows) (ibc_division o) in
    sql_neq_lit (ibc_division o) "overall" = true /\
    grp <> [] /\
    avg_index o = sql_avg (map index_value grp) /\
    ((forall r, In r grp -> index_value r <> None) ->
     avg_index o
     = Some (fold_right Qplus 0 (non_null (map index_value grp))
             / inject_Z (Z.of_nat (length grp)))%Q) /\
    exists i a,
      nth_error s i = Some a /\
      ca_date a = ibc_date o /\ ca_category_name a = ibc_category_name o /\
      ca_avg_index a = avg_index o /\
      match i with
      | 0 => ibc_mom_change o = None
      | S j => forall ap, nth_error s j = Some ap ->
          ibc_mom_change o = match ca_avg_index ap, avg_index o with
                             | Some p, Some x => Some ((x / p - 1) * 100)%Q
                             | _, _ => None
                             end
      end /\
      (i < 12 -> ibc_yoy_change o = None) /\
      (12 <= i -> forall ap, nth_error s (i - 12) = Some ap ->
          ibc_yoy_change o = match ca_avg_index ap, avg_index o with
                             | Some p, Some x => Some ((x / p - 1) * 100)%Q
                             | _, _ => None
                             end)).
Proof.
  assert (Hq : inflation_by_category cat_rows = Ok cat_out)
    by (vm_compute; reflexivity).
  split; [exact Hq|]. exact (inflation_by_category_rows cat_rows cat_out Hq).
Defined.

(** C5 as stated fails: the month-1 food group has two states, one with a
    NULL index value; AVG leaves that state out and [avg_index] is 100, the
    value of the other state alone. *)
Lemma inflation_by_category_avg_skips_null_cex :
  map state (category_group cat_rows (1, Some "01", "Food")) = ["X"; "Y"] /\
  map index_value (category_group cat_rows (1, Some "01", "Food"))
  = [Some 100%Q; None] /\
  map (fun o => option_map (Qeq_bool 100) (avg_index o))
      (filter (fun o => Nat.eqb (ibc_date o) 1
                        && opt_str_eqb (ibc_division o) (Some "01")) cat_out)
  = [Some true].
Proof. split; [|split]; vm_compute; reflexivity. Qed.

(** ** Claims about staging.cpi_monthly *)

Lemma find_hd_filter {A} (p : A -> bool) l : find p l = hd_error (filter p l).
Proof. induction l as [|x l IH]; simpl; [reflexivity|]. destruct (p x); auto. Qed.

Lemma left_join_single cats c :
  length (filter (category_matches c) cats) <= 1 ->
  left_join_categories cats c = [joined_row cats c].
Proof.
  unfold left_join_categories, joined_row; rewrite find_hd_filter.
  destruct (filter (category_matches c) cats) as [|m [|m2 ms]]; simpl; intro H;
    [reflexivity|reflexivity|lia].
Qed.

(** C6.  If every division code has at most one digit-level-2 category row,
    the staging table holds exactly one row per raw observation (a
    reordering of [joined_row] over raw.cpi_data, whose category name is
    'Overall' when no category matches), so its row count equals the raw
    row count and the count check of [validate_staging] passes. *)
Theorem transform_cpi_monthly_row_count raw cats
  (Hcat : forall d,
     length (filter (fun cat => sql_eq_opt (Some d) (cat_division cat)
                                && sql_eq_nat (digits cat) 2) cats) <= 1) :
  Permutation (transform_cpi_monthly raw cats) (map (joined_row cats) raw) /\
  length (transform_cpi_monthly raw cats) = length raw /\
  row_counts_match (length raw) (length (transform_cpi_monthly raw cats)) = true /\
  (forall c, In c raw -> filter (category_matches c) cats = [] ->
     category_name (joined_row cats c) = "Overall").
Proof.
  assert (Hfm : flat_map (left_join_categories cats) raw = map (joined_row cats) raw).
  { induction raw as [|c raw IH]; simpl; [reflexivity|].
    rewrite left_join_single, IH; [reflexivity|].
    destruct (raw_division c) as [d|] eqn:Ed.
    - specialize (Hcat d). unfold category_matches; rewrite Ed. exact Hcat.
    - unfold category_matches; rewrite Ed.
      assert (E : filter (fun cat => sql_eq_opt None (cat_division cat)
                                     && sql_eq_nat (digits cat) 2) cats = [])
        by (clear; induction cats as [|cat cats IHc]; simpl; auto).
      rewrite E; simpl; lia. }
  assert (Hp : Permutation (transform_cpi_monthly raw cats) (map (joined_row cats) raw)).
  { unfold transform_cpi_monthly; rewrite <- Hfm; apply Permutation_sort_with. }
  assert (Hl : length (transform_cpi_monthly raw cats) = length raw).
  { rewrite (Permutation_length Hp), length_map; reflexivity. }
  split; [exact Hp|]. split; [exact Hl|]. split.
  - unfold row_counts_match; rewrite Hl; apply Nat.eqb_refl.
  - intros c _ Hnone. unfold joined_row; simpl. rewrite find_hd_filter, Hnone.
    reflexivity.
Qed.

Lemma transform_cpi_monthly_row_count_witness :
  (forall d,
     length (filter (fun cat => sql_eq_opt (Some d) (cat_division cat)
                                && sql_eq_nat (digits cat) 2) raw_cats) <= 1) /\
  Permutation (transform_cpi_monthly raw_rows raw_cats)
              (map (joined_row raw_cats) raw_rows) /\
  length (transform_cpi_monthly raw_rows raw_cats) = length raw_rows /\
  row_counts_match (length raw_rows)
                   (length (transform_cpi_monthly raw_rows raw_cats)) = true /\
  (forall c, In c raw_rows -> filter (category_matches c) raw_cats = [] ->
     category_name (joined_row raw_cats c) = "Overall").
Proof.
  assert (Hcat : forall d,
     length (filter (fun cat => sql_eq_opt (Some d) (cat_division cat)
                                && sql_eq_nat (digits cat) 2) raw_cats) <= 1).
  { intro d. simpl. destruct (String.eqb d "01"), (String.eqb d "011"); simpl; lia. }
  split; [exact Hcat|].
  exact (transform_cpi_monthly_row_count raw_rows raw_cats Hcat).
Defined.

(** ** Claims about the warehouse loader *)

(** One call of [load_to_raw], evaluated. *)
Lemma load_to_raw_run env mode table n w :
  load_to_raw env mode table n w =
  match to_sql_outcome env mode table w with
  | None =>
      (mk_warehouse (set_table table (stored_count mode table n w) (raw_tables w))
                    (load_metadata w
                     ++ audit_written env (mk_audit table n "SUCCESS" None)),
       Ok n)
  | Some e =>
      (mk_warehouse (failed_tables env table (raw_tables w))
                    (load_metadata w
                     ++ audit_written env (mk_audit table 0 "FAILED" (Some e))),
       Raise e)
  end.
Proof.
  unfold load_to_raw, ptry, pbind, to_sql_raw, log_load, insert_metadata,
    pret, praise, audit_written.
  destruct (to_sql_outcome env mode table w) as [e|];
    destruct (metadata_error env) as [ae|]; simpl;
    rewrite ?app_nil_r; destruct w; reflexivity.
Qed.

(** C7 (amended).  Every call of [load_to_raw]: when [df.to_sql] succeeds it
    returns the row count and the audit table gains one SUCCESS row with that
    count, provided the audit INSERT itself succeeds (none otherwise); when
    [df.to_sql] raises, the audit table gains one FAILED row with the error
    text under the same proviso, and the call raises the original error. *)
Theorem load_to_raw_audit env mode table n w :
  let '(w', res) := load_to_raw env mode table n w in
  match to_sql_outcome env mode table w with
  | None =>
      res = Ok n /\
      load_metadata w'
      = load_metadata w
        ++ (if metadata_error env then [] else [mk_audit table n "SUCCESS" None])
  | Some e =>
      res = Raise e /\
      load_metadata w'
      = load_metadata w
        ++ (if metadata_error env then [] else [mk_audit table 0 "FAILED" (Some e)])
  end.
Proof.
  rewrite load_to_raw_run. unfold audit_written.
  destruct (to_sql_outcome env mode table w) as [e|];
    destruct (metadata_error env); simpl; auto.
Qed.

(** C7 as stated fails: the bulk load succeeds and returns 3, but the
    audit INSERT fails, so no SUCCESS row is appended. *)
Lemma load_to_raw_no_audit_row_cex :
  load_to_raw audit_down_env Replace "cpi_data" 3 empty_warehouse
  = (mk_warehouse [("cpi_data", 3)] [], Ok 3).
Proof. reflexivity. Qed.

(** C10.  The outcome of [load_to_raw] does not depend on whether the
    audit INSERT fails: it returns the row count when [df.to_sql] succeeds
    and raises the storage error otherwise, and the raw tables end up the
    same, whatever the audit table does. *)
Theorem load_to_raw_outcome_ignores_audit env mode table n w
  (audit_err : option string) :
  let env' := mk_loader_env (to_sql_error env) audit_err in
  snd (load_to_raw env' mode table n w)
  = match to_sql_outcome env mode table w with
    | None => Ok n
    | Some e => Raise e
    end /\
  snd (load_to_raw env' mode table n w) = snd (load_to_raw env mode table n w) /\
  raw_tables (fst (load_to_raw env' mode table n w))
  = raw_tables (fst (load_to_raw env mode table n w)).
Proof.
  simpl. rewrite !load_to_raw_run.
  assert (E : to_sql_outcome (mk_loader_env (to_sql_error env) audit_err) mode table w
              = to_sql_outcome env mode table w) by reflexivity.
  rewrite E. destruct (to_sql_outcome env mode table w); simpl; auto.
Qed.

(** ** Claims about the mart run *)

(** C8.  [run_all] never raises.  The derivations run in order, each
    replacing its table; the first one that raises stops the run, which
    returns [false]: tables replaced before it keep their new contents, its
    own table and the later ones keep their old contents, and the later
    derivations are not started.  When all three succeed the run returns
    [true]. *)
Theorem mart_run_all_outcome env w :
  let '(w', res) := mart_run_all env w in
  stg_cpi_monthly w' = stg_cpi_monthly w /\
  match derivation_error env "inflation_by_state"
          (inflation_by_state (stg_cpi_monthly w)) with
  | Some _ =>
      res = Ok false /\
      builds_started w' = builds_started w ++ ["inflation_by_state"] /\
      mart_inflation_by_state w' = mart_inflation_by_state w /\
      mart_inflation_by_category w' = mart_inflation_by_category w /\
      mart_state_comparison w' = mart_state_comparison w
  | None =>
      mart_inflation_by_state w'
      = result_to_option (inflation_by_state (stg_cpi_monthly w)) /\
      match derivation_error env "inflation_by_category"
              (inflation_by_category (stg_cpi_monthly w)) with
      | Some _ =>
          res = Ok false /\
          builds_started w'
          = builds_started w ++ ["inflation_by_state"; "inflation_by_category"] /\
          mart_inflation_by_category w' = mart_inflation_by_category w /\
          mart_state_comparison w' = mart_state_comparison w
      | None =>
          mart_inflation_by_category w'
          = result_to_option (inflation_by_category (stg_cpi_monthly w)) /\
          builds_started w'
          = builds_started w ++ ["inflation_by_state"; "inflation_by_category";
                                 "state_comparison"] /\
          match derivation_error env "state_comparison"
                  (state_comparison (stg_cpi_monthly w) (stg_states w)) with
          | Some _ =>
              res = Ok false /\
              mart_state_comparison w' = mart_state_comparison w
          | None =>
              res = Ok true /\
              mart_state_comparison w'
              = result_to_option
                  (state_comparison (stg_cpi_monthly w) (stg_states w))
          end
      end
  end.
Proof.
  destruct w as [stg sts m1 m2 m3 started].
  unfold mart_run_all, ptry, pbind, pret, build_inflation_by_state,
    build_inflation_by_category, build_state_comparison, build_mart_table,
    derivation_error, start_build.
  repeat (simpl; match goal with
                 | |- context [read_error env ?n] => destruct (read_error env n)
                 | |- context [write_error env ?n] => destruct (write_error env n)
                 | |- context [inflation_by_state stg] =>
                     destruct (inflation_by_state stg)
                 | |- context [inflation_by_category stg] =>
                     destruct (inflation_by_category stg)
                 | |- context [state_comparison stg sts] =>
                     destruct (state_comparison stg sts)
                 end);
    simpl; rewrite <- ?app_assoc; auto 6.
Qed.

(** ** Claims about the backup uploader *)

(** When the storage client signals every failure as a [ClientError], the
    loop never raises: a missing path is recorded under [failed] without an
    upload call, and each existing path is uploaded once and recorded under
    [uploaded] (by key) or [failed] (by path). *)
Lemma upload_each_classifies env files res w
  (Hclient : forall l k e, In (l, k) files ->
             existsb (String.eqb l) (local_files w) = true ->
             client_upload env l k <> OtherErr e) :
  exists w' res',
    upload_each env files res w = (w', Ok res') /\
    local_files w' = local_files w /\
    upload_calls w'
    = upload_calls w
      ++ filter (fun lk => existsb (String.eqb (fst lk)) (local_files w)) files /\
    uploaded res'
    = uploaded res
      ++ map snd (filter (fun lk => existsb (String.eqb (fst lk)) (local_files w)
                                    && upload_succeeds (client_upload env (fst lk) (snd lk)))
                         files) /\
    failed res'
    = failed res
      ++ map fst (filter (fun lk => negb (existsb (String.eqb (fst lk)) (local_files w)
                                          && upload_succeeds
                                               (client_upload env (fst lk) (snd lk))))
                         files).
Proof.
  revert res w Hclient; induction files as [|[l k] rest IH]; intros res w Hclient.
  - exists w, res; simpl; rewrite !app_nil_r; auto.
  - simpl. unfold pbind at 1, path_exists.
    destruct (existsb (String.eqb l) (local_files w)) eqn:Hex; simpl.
    + unfold pbind, upload_file.
      destruct (client_upload env l k) as [|msg|msg] eqn:Hup; simpl.
      * edestruct (IH (add_uploaded res k)
                      (mk_fs_world (local_files w) (upload_calls w ++ [(l, k)])
                                   (bucket w ++ [k])))
          as [w' [res' [Hrun [Hl [Hc [Hu Hf]]]]]].
        { intros l' k' e Hin Hex'. apply (Hclient l' k' e); [right; exact Hin|exact Hex']. }
        exists w', res'. simpl in *. rewrite Hrun, Hl, Hc, Hu, Hf.
        rewrite <- !app_assoc; auto.
      * edestruct (IH (add_failed res l)
                      (mk_fs_world (local_files w) (upload_calls w ++ [(l, k)])
                                   (bucket w)))
          as [w' [res' [Hrun [Hl [Hc [Hu Hf]]]]]].
        { intros l' k' e Hin Hex'. apply (Hclient l' k' e); [right; exact Hin|exact Hex']. }
        exists w', res'. simpl in *. rewrite Hrun, Hl, Hc, Hu, Hf.
        rewrite <- !app_assoc; auto.
      * exfalso. apply (Hclient l k msg); [left; reflexivity|exact Hex|exact Hup].
    + edestruct (IH (add_failed res l) w) as [w' [res' [Hrun [Hl [Hc [Hu Hf]]]]]].
      { intros l' k' e Hin Hex'. apply (Hclient l' k' e); [right; exact Hin|exact Hex']. }
      exists w', res'. simpl in *. rewrite Hrun, Hl, Hc, Hu, Hf.
      rewrite <- !app_assoc; auto.
Qed.

(** C9 (code defect).  At that input [upload_data_backup] raises the
    upload error instead of returning its results: the missing CPI snapshot
    is not uploaded, but its [failed] entry is lost with the results. *)
Theorem upload_data_backup_transfer_error_escapes :
  upload_data_backup transfer_failure_env (Some "2025-06-01") cpi_snapshot_missing
  = (mk_fs_world ["data/raw/categories.parquet"]
                 [("data/raw/categories.parquet",
                   "raw/categories/date=2025-06-01/categories.parquet")] [],
     Raise "S3UploadFailedError: Failed to upload data/raw/categories.parquet").
Proof. reflexivity. Qed.

(** ** Further properties of the code *)
(** ** Orders used by the ORDER BY clauses *)

Lemma ascii_compare_lt_trans a b c :
  Ascii.compare a b = Lt -> Ascii.compare b c = Lt -> Ascii.compare a c = Lt.
Proof. unfold Ascii.compare; rewrite !N.compare_lt_iff; lia. Qed.

Lemma string_compare_lt_trans s1 s2 s3 :
  String.compare s1 s2 = Lt -> String.compare s2 s3 = Lt ->
  String.compare s1 s3 = Lt.
Proof.
  revert s2 s3; induction s1 as [|a s1 IH]; intros [|b s2] [|c s3]; simpl;
    try discriminate; auto.
  destruct (Ascii.compare a b) eqn:Eab; try discriminate;
    destruct (Ascii.compare b c) eqn:Ebc; try discriminate.
  - apply Ascii.compare_eq_iff in Eab; apply Ascii.compare_eq_iff in Ebc;
      subst. unfold Ascii.compare at 1; rewrite N.compare_refl. apply IH.
  - apply Ascii.compare_eq_iff in Eab; subst; rewrite Ebc; auto.
  - apply Ascii.compare_eq_iff in Ebc; subst; rewrite Eab; auto.
  - rewrite (ascii_compare_lt_trans _ _ _ Eab Ebc); auto.
Qed.

Lemma string_compare_refl s : String.compare s s = Eq.
Proof.
  induction s as [|a s IH]; simpl; [reflexivity|].
  unfold Ascii.compare at 1; rewrite N.compare_refl; exact IH.
Qed.


Lemma str_lt_trans a b c : str_lt a b -> str_lt b c -> str_lt a c.
Proof.
  unfold str_lt, String.ltb.
  destruct (String.compare a b) eqn:E1; try discriminate;
    destruct (String.compare b c) eqn:E2; try discriminate.
  rewrite (string_compare_lt_trans _ _ _ E1 E2); reflexivity.
Qed.

Lemma str_lt_irrefl a : ~ str_lt a a.
Proof. unfold str_lt, String.ltb; rewrite string_compare_refl; discriminate. Qed.

(** Two distinct strings are ordered one way or the other. *)
Lemma str_lt_total a b : a <> b -> String.ltb a b = false -> str_lt b a.
Proof.
  unfold str_lt, String.ltb; intros Hne.
  rewrite (String.compare_antisym b a).
  destruct (String.compare a b) eqn:E; simpl; try discriminate; auto.
  apply String.compare_eq_iff in E; contradiction.
Qed.

Lemma HdRel_insert_str y x t :
  str_lt y x -> HdRel str_lt y t -> HdRel str_lt y (insert_str x t).
Proof.
  intros Hyx Ht; destruct t as [|z t]; simpl; [constructor; exact Hyx|].
  inversion Ht; subst.
  destruct (String.eqb x z); [constructor; assumption|].
  destruct (String.ltb x z); constructor; assumption.
Qed.

Lemma Sorted_insert_str x l : Sorted str_lt l -> Sorted str_lt (insert_str x l).
Proof.
  induction l as [|y t IH]; intro Hs; simpl; [repeat constructor|].
  inversion Hs as [|? ? Ht Hhd]; subst.
  destruct (String.eqb_spec x y) as [->|Hne]; [exact Hs|].
  destruct (String.ltb x y) eqn:Elt.
  - constructor; [exact Hs|constructor; exact Elt].
  - constructor; [apply IH, Ht|].
    apply HdRel_insert_str; [apply str_lt_total; auto|exact Hhd].
Qed.

Lemma NoDup_distinct_sorted l : NoDup (distinct_sorted l).
Proof.
  assert (Hs : Sorted str_lt (distinct_sorted l)).
  { induction l as [|x l IH]; simpl; [constructor|]. apply Sorted_insert_str, IH. }
  apply Sorted_StronglySorted in Hs; [|intros a b c; apply str_lt_trans].
  induction Hs as [|a l0 _ IH Hall]; constructor; auto.
  intro Hin. rewrite Forall_forall in Hall. apply (str_lt_irrefl a), Hall, Hin.
Qed.

(** Insertion sort by a "sorts strictly before" test that is asymmetric
    leaves no row sorting strictly before its predecessor. *)
Lemma HdRel_insert_with {A} (lt : A -> A -> bool) y x t :
  lt x y = false -> HdRel (fun a b => lt b a = false) y t ->
  HdRel (fun a b => lt b a = false) y (insert_with lt x t).
Proof.
  intros Hyx Ht; destruct t as [|z t]; simpl; [constructor; exact Hyx|].
  inversion Ht; subst. destruct (lt x z); constructor; assumption.
Qed.

Lemma Sorted_sort_with {A} (lt : A -> A -> bool)
  (Hasym : forall a b, lt a b = true -> lt b a = false) l :
  Sorted (fun a b => lt b a = false) (sort_with lt l).
Proof.
  induction l as [|x l IH]; simpl; [constructor|].
  generalize dependent (sort_with lt l); intros s Hs.
  induction s as [|y t IHs]; simpl; [repeat constructor|].
  inversion Hs as [|? ? Ht Hhd]; subst.
  destruct (lt x y) eqn:Exy.
  - constructor; [exact Hs|constructor; apply Hasym, Exy].
  - constructor; [apply IHs, Ht|apply HdRel_insert_with; assumption].
Qed.

(** ** Counting rows over the groups of a GROUP BY / PARTITION BY *)

Lemma list_sum_indicator_absent {K} (eqb : K -> K -> bool)
  (Heqb : forall a b, eqb a b = true <-> a = b) k0 ks :
  ~ In k0 ks -> list_sum (map (fun k => if eqb k0 k then 1 else 0) ks) = 0.
Proof.
  induction ks as [|k ks IH]; simpl; intro Hn; [reflexivity|].
  destruct (eqb k0 k) eqn:E.
  - apply Heqb in E; subst; tauto.
  - rewrite IH; tauto.
Qed.

Lemma list_sum_indicator_once {K} (eqb : K -> K -> bool)
  (Heqb : forall a b, eqb a b = true <-> a = b) k0 ks :
  NoDup ks -> In k0 ks ->
  list_sum (map (fun k => if eqb k0 k then 1 else 0) ks) = 1.
Proof.
  induction 1 as [|k ks Hk Hnd IH]; simpl; [tauto|]. intros [<-|Hin].
  - assert (E : eqb k k = true) by (apply Heqb; reflexivity). rewrite E.
    rewrite (list_sum_indicator_absent eqb Heqb); auto.
  - destruct (eqb k0 k) eqn:E.
    + apply Heqb in E; subst; contradiction.
    + simpl; apply IH, Hin.
Qed.

Lemma sum_filter_partition {A K} (key : A -> K) (eqb : K -> K -> bool)
  (Heqb : forall a b, eqb a b = true <-> a = b) (ks : list K) (l : list A) :
  NoDup ks -> (forall x, In x l -> In (key x) ks) ->
  list_sum (map (fun k => length (filter (fun x => eqb (key x) k) l)) ks)
  = length l.
Proof.
  intros Hnd; induction l as [|x l IH]; intros Hcov; simpl.
  - clear; induction ks; simpl; auto.
  - assert (Hsplit :
      list_sum (map (fun k => length (if eqb (key x) k
                                      then x :: filter (fun y => eqb (key y) k) l
                                      else filter (fun y => eqb (key y) k) l)) ks)
      = list_sum (map (fun k => if eqb (key x) k then 1 else 0) ks)
        + list_sum (map (fun k => length (filter (fun y => eqb (key y) k) l)) ks)).
    { clear; induction ks as [|k ks IH]; simpl; [reflexivity|].
      destruct (eqb (key x) k); simpl; rewrite IH; lia. }
    rewrite Hsplit, (list_sum_indicator_once eqb Heqb); auto.
    + rewrite IH; [reflexivity|]. intros y Hy; apply Hcov; right; exact Hy.
    + apply Hcov; left; reflexivity.
Qed.

Lemma filter_andb {A} (f g : A -> bool) l :
  filter (fun x => f x && g x) l = filter f (filter g l).
Proof.
  induction l as [|x l IH]; simpl; [reflexivity|].
  destruct (g x); simpl; destruct (f x); simpl; rewrite IH; reflexivity.
Qed.

Lemma mapM_Forall2 {A B} (f : A -> result B) l out :
  mapM f l = Ok out -> Forall2 (fun x y => f x = Ok y) l out.
Proof.
  revert out; induction l as [|x l IH]; intros out H; simpl in H.
  - inversion H; constructor.
  - destruct (f x) as [y|] eqn:Ef; simpl in H; [|discriminate].
    destruct (mapM f l) as [ys|] eqn:Em; simpl in H; [|discriminate].
    inversion H; subst; constructor; auto.
Qed.


Lemma map_indexed {A B} (f : A -> B) l :
  map (fun p => f (snd p)) (indexed l) = map f l.
Proof.
  unfold indexed; generalize 0; induction l as [|x l IH]; intro k; simpl;
    [reflexivity|]. rewrite IH; reflexivity.
Qed.

Lemma StronglySorted_app {A} (R : A -> A -> Prop) l1 l2 :
  StronglySorted R l1 -> StronglySorted R l2 ->
  (forall x y, In x l1 -> In y l2 -> R x y) -> StronglySorted R (l1 ++ l2).
Proof.
  induction 1 as [|a l1 _ IH Hall]; intros H2 Hx; simpl; [exact H2|].
  constructor.
  - apply IH; [exact H2|]. intros x y Hx1 Hy; apply Hx; [right|]; assumption.
  - rewrite Forall_forall in *. intros y Hy. apply in_app_or in Hy as [Hy|Hy].
    + apply Hall, Hy.
    + apply Hx; [left; reflexivity|exact Hy].
Qed.

Lemma StronglySorted_map {A B} (f : A -> B) (R : B -> B -> Prop) l :
  StronglySorted (fun a b => R (f a) (f b)) l -> StronglySorted R (map f l).
Proof.
  induction 1 as [|a l _ IH Hall]; simpl; constructor; [exact IH|].
  rewrite Forall_forall in *. intros y Hy. apply in_map_iff in Hy as [x [<- Hx]].
  apply Hall, Hx.
Qed.

(** Blocks laid end to end, each sorted and carrying one key, the keys
    strictly increasing: the whole is sorted. *)
Lemma StronglySorted_concat_blocks {A} (R : A -> A -> Prop) (kf : A -> string)
  (Hcross : forall a b, str_lt (kf a) (kf b) -> R a b)
  (blocks : list (list A)) (keys : list string) :
  StronglySorted str_lt keys ->
  Forall2 (fun b k => StronglySorted R b /\ forall x, In x b -> kf x = k)
          blocks keys ->
  StronglySorted R (concat blocks).
Proof.
  intros Hk H2. induction H2 as [|b k bs ks [Hb Hkey] Hrest IH]; simpl; [constructor|].
  inversion Hk as [|? ? Hks Hall]; subst.
  apply StronglySorted_app; [exact Hb|apply IH, Hks|].
  intros x y Hx Hy. apply Hcross. rewrite (Hkey x Hx).
  apply in_concat in Hy as [b' [Hb' Hy]].
  clear - Hrest Hall Hb' Hy.
  induction Hrest as [|b0 k0 bs0 ks0 [_ Hkey0] _ IH2]; [contradiction|].
  inversion Hall; subst. destruct Hb' as [<-|Hb'].
  - rewrite (Hkey0 y Hy); assumption.
  - apply IH2; assumption.
Qed.

Lemma Sorted_weaken {A} (R R' : A -> A -> Prop) l :
  (forall a b, In a l -> In b l -> R a b -> R' a b) -> Sorted R l -> Sorted R' l.
Proof.
  intros Himp Hs; induction Hs as [|a l Hs IH Hhd]; constructor.
  - apply IH; intros x y Hx Hy; apply Himp; right; assumption.
  - destruct Hhd as [|b l' Hab]; constructor.
    apply Himp; [left; reflexivity|right; left; reflexivity|exact Hab].
Qed.

Lemma state_series_length rows st :
  length (state_series rows st)
  = length (filter (fun r => String.eqb (state r) st)
                   (filter (fun r => sql_eq_lit (division r) "overall") rows)).
Proof.
  unfold state_series. rewrite (Permutation_length (Permutation_sort_with _ _)).
  rewrite <- filter_andb; reflexivity.
Qed.

Lemma state_series_sorted rows st :
  StronglySorted (fun a b => date a <= date b) (state_series rows st).
Proof.
  apply Sorted_StronglySorted; [intros a b c; lia|].
  eapply Sorted_weaken; [|apply Sorted_sort_with].
  - intros a b _ _ H; unfold by_key in H; apply Nat.ltb_ge in H; exact H.
  - intros a b H; unfold by_key in *; apply Nat.ltb_lt in H; apply Nat.ltb_ge; lia.
Qed.

Lemma state_partition_rows_keys series out :
  state_partition_rows series = Ok out ->
  map (fun o => (ibs_state o, ibs_date o)) out
  = map (fun r => (state r, date r)) series.
Proof.
  unfold state_partition_rows; intro H.
  rewrite <- (map_indexed (fun r => (state r, date r))).
  apply (mapM_Ok_map _ _ _ _ _ H). intros [i r] y Hf; simpl in Hf.
  repeat match type of Hf with
         | context [pct_change ?a ?b] =>
             destruct (pct_change a b); simpl in Hf; [|discriminate]
         end.
  inversion Hf; reflexivity.
Qed.

Lemma StronglySorted_weaken {A} (R R' : A -> A -> Prop) l :
  (forall a b, In a l -> In b l -> R a b -> R' a b) ->
  StronglySorted R l -> StronglySorted R' l.
Proof.
  intros Himp Hs; induction Hs as [|a l Hs IH Hall]; constructor.
  - apply IH; intros x y Hx Hy; apply Himp; right; assumption.
  - rewrite Forall_forall in *; intros y Hy.
    apply Himp; [left; reflexivity|right; exact Hy|apply Hall, Hy].
Qed.

Lemma Forall2_flip {A B} (P : A -> B -> Prop) l1 l2 :
  Forall2 P l1 l2 -> Forall2 (fun b a => P a b) l2 l1.
Proof. induction 1; constructor; auto. Qed.

Lemma Forall2_map_l {A B C} (f : A -> C) (P : C -> B -> Prop) l1 l2 :
  Forall2 (fun a b => P (f a) b) l1 l2 -> Forall2 P (map f l1) l2.
Proof. induction 1; simpl; constructor; auto. Qed.

Lemma Forall2_impl' {A B} (P Q : A -> B -> Prop) l1 l2 :
  (forall a b, P a b -> Q a b) -> Forall2 P l1 l2 -> Forall2 Q l1 l2.
Proof. intros H; induction 1; constructor; auto. Qed.

Lemma Sorted_distinct_sorted l : Sorted str_lt (distinct_sorted l).
Proof.
  induction l as [|x l IH]; simpl; [constructor|]. apply Sorted_insert_str, IH.
Qed.

Lemma overall_states_sorted rows : StronglySorted str_lt (overall_states rows).
Proof.
  apply Sorted_StronglySorted; [intros a b c; apply str_lt_trans|].
  apply Sorted_distinct_sorted.
Qed.

(** X1.  When [build_inflation_by_state]'s query succeeds, it yields one
    row per staging row whose division is 'overall'. *)
Theorem inflation_by_state_row_count rows out
  (H : inflation_by_state rows = Ok out) :
  length out
  = length (filter (fun r => sql_eq_lit (division r) "overall") rows).
Proof.
  unfold inflation_by_state in H.
  destruct (mapM _ (overall_states rows)) as [parts|] eqn:Em; simpl in H;
    [|discriminate]. inversion H; subst; clear H.
  rewrite length_concat.
  rewrite (mapM_Ok_map _ (@length _) (fun st => length (state_series rows st))
             _ _ Em)
    by (intros st part Hp; exact (proj1 (state_partition_rows_nth _ _ Hp))).
  rewrite (map_ext _ _ (state_series_length rows)).
  apply (sum_filter_partition state String.eqb String.eqb_eq).
  - apply NoDup_distinct_sorted.
  - intros r Hr. unfold overall_states; rewrite In_distinct_sorted.
    apply in_map; exact Hr.
Qed.

(** X2.  The rows of mart.inflation_by_state come out in (state, date)
    order: states ascending, and dates ascending within a state. *)
Theorem inflation_by_state_sorted rows out
  (H : inflation_by_state rows = Ok out) :
  StronglySorted state_date_le (map (fun o => (ibs_state o, ibs_date o)) out).
Proof.
  unfold inflation_by_state in H.
  destruct (mapM _ (overall_states rows)) as [parts|] eqn:Em; simpl in H;
    [|discriminate]. inversion H; subst; clear H.
  rewrite concat_map.
  apply (StronglySorted_concat_blocks state_date_le fst
           (fun a b Hab => or_introl Hab) _ (overall_states rows)).
  - apply overall_states_sorted.
  - apply Forall2_map_l, Forall2_flip.
    eapply Forall2_impl'; [|apply (mapM_Forall2 _ _ _ Em)].
    intros st part Hp; simpl in Hp.
    rewrite (state_partition_rows_keys _ _ Hp). split.
    + apply StronglySorted_map.
      eapply StronglySorted_weaken; [|apply state_series_sorted].
      intros a b Ha Hb Hab. right; simpl.
      rewrite (proj1 (proj2 (state_series_In _ _ _ Ha))),
              (proj1 (proj2 (state_series_In _ _ _ Hb))).
      split; [reflexivity|exact Hab].
    + intros x Hx; apply in_map_iff in Hx as [r [<- Hr]].
      exact (proj1 (proj2 (state_series_In _ _ _ Hr))).
Qed.

(** ** state_comparison: order, ranks and rows *)

Lemma Qle_bool_false x y : Qle_bool x y = false -> (y < x)%Q.
Proof.
  intro H; destruct (Qlt_le_dec y x) as [Hlt|Hle]; [exact Hlt|].
  apply Qle_bool_iff in Hle; congruence.
Qed.

Lemma desc_before_asym a b : desc_before a b = true -> desc_before b a = false.
Proof.
  destruct a as [x|], b as [y|]; simpl; try discriminate; auto.
  intro H; apply negb_true_iff, Qle_bool_false in H.
  apply negb_false_iff, Qle_bool_iff. apply Qlt_le_weak, H.
Qed.

(** A key sorting before [ka] also sorts before any [kb] that does not
    sort before [ka]. *)
Lemma desc_before_trans k ka kb :
  desc_before k ka = true -> desc_before kb ka = false -> desc_before k kb = true.
Proof.
  destruct k as [z|], ka as [x|], kb as [y|]; simpl; try discriminate; auto.
  intros H1 H2. apply negb_true_iff, Qle_bool_false in H1.
  apply negb_false_iff, Qle_bool_iff in H2.
  apply negb_true_iff. destruct (Qle_bool z y) eqn:E; [|reflexivity].
  apply Qle_bool_iff in E. exfalso. apply (Qlt_irrefl x).
  apply Qlt_le_trans with z; [exact H1|]. apply Qle_trans with y; assumption.
Qed.

Lemma length_filter_mono {A} (f g : A -> bool) l :
  (forall x, f x = true -> g x = true) ->
  length (filter f l) <= length (filter g l).
Proof.
  intro H; induction l as [|x l IH]; simpl; [lia|].
  destruct (f x) eqn:Ef; [rewrite (H x Ef); simpl; lia|].
  destruct (g x); simpl; lia.
Qed.

Lemma sql_rank_mono keys ka kb :
  desc_before kb ka = false -> sql_rank keys ka <= sql_rank keys kb.
Proof.
  intro H; unfold sql_rank. apply le_n_S, length_filter_mono.
  intros k Hk; apply (desc_before_trans k ka kb); assumption.
Qed.

(** X4.  Rows are stored by descending [overall_cpi] (NULLs first) and
    [rank_overall] never decreases down the table. *)
Theorem state_comparison_order_rank rows states out
  (H : state_comparison rows states = Ok out) :
  Sorted (fun a b => desc_before (overall_cpi b) (overall_cpi a) = false /\
                     rank_overall a <= rank_overall b) out.
Proof.
  destruct (state_comparison_Ok _ _ _ H) as [out0 [Hout [_ Hrows]]].
  set (keys := map (fun pr => p_overall_cpi (fst pr))
                   (flat_map (join_region states) (pivoted rows))) in *.
  assert (Hrank : forall o, In o out -> rank_overall o = sql_rank keys (overall_cpi o)).
  { intros o Ho. rewrite Hout, In_sort_with in Ho.
    destruct (Hrows o Ho) as [p [reg [_ [Hov [Hr _]]]]].
    rewrite Hr, Hov; reflexivity. }
  eapply Sorted_weaken; [|rewrite Hout; apply Sorted_sort_with;
                          intros a b; apply desc_before_asym].
  intros a b Ha Hb Hab. split; [exact Hab|].
  rewrite (Hrank a Ha), (Hrank b Hb). apply sql_rank_mono, Hab.
Qed.

Lemma filter_state_name_unique states st :
  NoDup (map state_name states) ->
  filter (fun s => String.eqb (state_name s) st) states
  = match find (fun s => String.eqb (state_name s) st) states with
    | Some s => [s]
    | None => []
    end.
Proof.
  induction states as [|s ss IH]; simpl; intro Hnd; [reflexivity|].
  inversion Hnd as [|? ? Hnin Hnd']; subst.
  destruct (String.eqb_spec (state_name s) st) as [Heq|Hne]; [|apply IH, Hnd'].
  f_equal. subst. clear IH Hnd Hnd'. induction ss as [|s' ss IH]; simpl; auto.
  destruct (String.eqb_spec (state_name s') (state_name s)) as [E|E].
  - exfalso; apply Hnin; simpl; left; exact E.
  - apply IH; intro Hin; apply Hnin; right; exact Hin.
Qed.

(** The region [LEFT JOIN staging.states] attaches to a state. *)
Lemma join_region_unique states p :
  NoDup (map state_name states) ->
  join_region states p
  = [(p, match find (fun s => String.eqb (state_name s) (p_state p)) states with
         | Some s => dim_region s
         | None => None
         end)].
Proof.
  intro Hnd; unfold join_region; rewrite (filter_state_name_unique _ _ Hnd).
  destruct (find _ states); reflexivity.
Qed.

(** X5.  With one staging.states row per state name, the comparison has
    exactly one row per state observed on the latest staging date, dated
    that day, with the state's region (NULL for a state missing from
    staging.states); an empty staging table gives an empty comparison. *)
Theorem state_comparison_one_row_per_state rows states out
  (Huniq : NoDup (map state_name states))
  (H : state_comparison rows states = Ok out) :
  match max_date rows with
  | None => out = []
  | Some m =>
      Permutation (map sc_state out)
                  (distinct_sorted (map state (filter (fun r => Nat.eqb (date r) m) rows))) /\
      forall o, In o out ->
        sc_latest_date o = m /\
        region o = match find (fun s => String.eqb (state_name s) (sc_state o)) states with
                   | Some s => dim_region s
                   | None => None
                   end
  end.
Proof.
  unfold state_comparison in H.
  set (jr := flat_map (join_region states) (pivoted rows)) in *.
  set (keys := map (fun pr => p_overall_cpi (fst pr)) jr) in *.
  destruct (mapM _ jr) as [out0|] eqn:Em; simpl in H; [|discriminate].
  inversion H; subst; clear H.
  assert (Hjr : jr = map (fun p => (p, match find (fun s => String.eqb (state_name s)
                                                                     (p_state p)) states with
                                      | Some s => dim_region s
                                      | None => None
                                      end)) (pivoted rows)).
  { unfold jr; clear - Huniq. induction (pivoted rows) as [|p ps IH]; simpl;
      [reflexivity|]. rewrite (join_region_unique _ _ Huniq), IH; reflexivity. }
  assert (Hfields : forall o, In o out0 ->
            exists p reg, In (p, reg) jr /\ sc_state o = p_state p /\
                          sc_latest_date o = p_latest_date p /\ region o = reg).
  { intros o Ho. destruct (mapM_Ok_In_out _ _ _ _ Em Ho) as [[p reg] [Hin Hf]].
    simpl in Hf. destruct (sql_div _ _); simpl in Hf; [|discriminate].
    inversion Hf; subst. exists p, reg; repeat split; assumption. }
  assert (Hst : map sc_state out0 = map (fun pr => p_state (fst pr)) jr).
  { apply (mapM_Ok_map _ _ _ _ _ Em). intros [p reg] y Hf; simpl in Hf.
    destruct (sql_div _ _); simpl in Hf; [|discriminate].
    inversion Hf; reflexivity. }
  unfold pivoted in Hjr. destruct (max_date rows) as [m|] eqn:Emax.
  - split.
    + eapply perm_trans; [apply Permutation_map, Permutation_sort_with|].
      rewrite Hst, Hjr, !map_map; simpl. rewrite map_id; apply Permutation_refl.
    + intros o Ho. rewrite In_sort_with in Ho.
      destruct (Hfields o Ho) as [p [reg [Hin [Hs [Hd Hr]]]]].
      rewrite Hjr in Hin. apply in_map_iff in Hin as [p' [Hpp Hp']].
      injection Hpp as E1 E2; subst p'.
      apply in_map_iff in Hp' as [st [Est _]]; subst p.
      simpl in *. rewrite Hs, Hd, Hr, <- E2; split; reflexivity.
  - simpl in Hjr. rewrite Hjr in Em. simpl in Em. inversion Em; reflexivity.
Qed.

(** ** inflation_by_category: groups and divisions *)

Lemma dedup_step_incl {A} (eqb : A -> A -> bool) l acc x :
  In x acc ->
  In x (fold_left (fun acc y => if existsb (eqb y) acc then acc else acc ++ [y])
                  l acc).
Proof.
  revert acc; induction l as [|y l IH]; intros acc Hx; simpl; [exact Hx|].
  apply IH. destruct (existsb (eqb y) acc); [exact Hx|].
  apply in_or_app; left; exact Hx.
Qed.

Lemma In_dedup_fold_complete {A} (eqb : A -> A -> bool)
  (Heqb : forall a b, eqb a b = true <-> a = b) x l acc :
  In x acc \/ In x l ->
  In x (fold_left (fun acc y => if existsb (eqb y) acc then acc else acc ++ [y])
                  l acc).
Proof.
  revert acc; induction l as [|y l IH]; intros acc Hx; simpl in *.
  - destruct Hx as [Hx|[]]; exact Hx.
  - destruct Hx as [Hx|[<-|Hx]]; [| |apply IH; right; exact Hx].
    + apply dedup_step_incl. destruct (existsb (eqb y) acc); [exact Hx|].
      apply in_or_app; left; exact Hx.
    + apply dedup_step_incl.
      destruct (existsb (eqb y) acc) eqn:E.
      * apply existsb_exists in E as [z [Hz Hxz]]. apply Heqb in Hxz; subst; exact Hz.
      * apply in_or_app; right; left; reflexivity.
Qed.

Lemma In_dedup_complete {A} (eqb : A -> A -> bool)
  (Heqb : forall a b, eqb a b = true <-> a = b) x l :
  In x l -> In x (dedup eqb l).
Proof. intro H; apply In_dedup_fold_complete; auto. Qed.

Lemma NoDup_dedup_fold {A} (eqb : A -> A -> bool)
  (Heqb : forall a b, eqb a b = true <-> a = b) l acc :
  NoDup acc ->
  NoDup (fold_left (fun acc y => if existsb (eqb y) acc then acc else acc ++ [y])
                   l acc).
Proof.
  revert acc; induction l as [|y l IH]; intros acc Hacc; simpl; [exact Hacc|].
  apply IH. destruct (existsb (eqb y) acc) eqn:E; [exact Hacc|].
  apply (Permutation_NoDup (Permutation_app_comm [y] acc)). simpl.
  constructor; [|exact Hacc]. intro Hin.
  assert (Ht : existsb (eqb y) acc = true)
    by (apply existsb_exists; exists y; split; [exact Hin|apply Heqb; reflexivity]).
  congruence.
Qed.

Lemma NoDup_dedup {A} (eqb : A -> A -> bool)
  (Heqb : forall a b, eqb a b = true <-> a = b) l :
  NoDup (dedup eqb l).
Proof. apply NoDup_dedup_fold; [exact Heqb|constructor]. Qed.

Lemma opt_str_eqb_iff a b : opt_str_eqb a b = true <-> a = b.
Proof.
  split; [apply opt_str_eqb_true|intros <-].
  destruct a; simpl; [apply String.eqb_refl|reflexivity].
Qed.

Lemma key_eqb_iff a b : key_eqb a b = true <-> a = b.
Proof.
  destruct a as [[d1 v1] c1], b as [[d2 v2] c2]; simpl.
  rewrite !andb_true_iff, Nat.eqb_eq, opt_str_eqb_iff, String.eqb_eq.
  split; [intros [[-> ->] ->]; reflexivity|intro E; inversion E; auto].
Qed.

Lemma division_series_length avg v :
  length (division_series avg v)
  = length (filter (fun a => opt_str_eqb (ca_division a) v) avg).
Proof.
  unfold division_series; apply Permutation_length, Permutation_sort_with.
Qed.

Lemma division_partition_rows_In series out o :
  division_partition_rows series = Ok out -> In o out ->
  exists a, In a series /\ ibc_division o = ca_division a.
Proof.
  intros H Ho. destruct (division_partition_rows_nth _ _ H) as [Hlen Hnth].
  destruct (In_nth_error _ _ Ho) as [i Hi].
  assert (Hlt : i < length series)
    by (rewrite <- Hlen; apply nth_error_Some; congruence).
  destruct (nth_error series i) as [a|] eqn:Ea;
    [|apply nth_error_None in Ea; lia].
  destruct (Hnth i a Ea) as [o' [Ho' [_ [Hdiv _]]]].
  rewrite Hi in Ho'; inversion Ho'; subst.
  exists a; split; [apply nth_error_In with i; exact Ea|exact Hdiv].
Qed.

(** X3.  One output row per (date, division, category_name) group of the
    staging rows read, and only rows whose division is present and is not
    'overall' are read: a NULL division is dropped, not reported. *)
Theorem inflation_by_category_groups rows out
  (H : inflation_by_category rows = Ok out) :
  length out = length (dedup key_eqb (map group_key (category_source rows))) /\
  forall o, In o out -> exists d, ibc_division o = Some d /\ d <> "overall".
Proof.
  unfold inflation_by_category in H. set (avg := category_avg rows) in *.
  destruct (mapM _ (dedup opt_str_eqb (map ca_division avg))) as [parts|] eqn:Em;
    simpl in H; [|discriminate]. inversion H; subst; clear H. split.
  - rewrite (Permutation_length (Permutation_sort_with _ _)), length_concat.
    rewrite (mapM_Ok_map _ (@length _)
               (fun v => length (division_series avg v)) _ _ Em)
      by (intros v part Hp; exact (proj1 (division_partition_rows_nth _ _ Hp))).
    rewrite (map_ext _ _ (division_series_length avg)).
    rewrite (sum_filter_partition ca_division opt_str_eqb opt_str_eqb_iff).
    + unfold avg, category_avg; rewrite length_map; reflexivity.
    + apply NoDup_dedup, opt_str_eqb_iff.
    + intros a Ha. apply In_dedup_complete; [apply opt_str_eqb_iff|].
      apply in_map, Ha.
  - intros o Ho. rewrite In_sort_with in Ho. apply in_concat in Ho as [part [Hp Ho]].
    destruct (mapM_Ok_In_out _ _ _ _ Em Hp) as [v [_ Hv]].
    destruct (division_partition_rows_In _ _ _ Hv Ho) as [a [Ha Hdiv]].
    unfold division_series in Ha; rewrite In_sort_with, filter_In in Ha.
    destruct (category_avg_In rows a (proj1 Ha)) as [_ [_ Hneq]].
    rewrite Hdiv. destruct (ca_division a) as [d|]; simpl in Hneq; [|discriminate].
    exists d; split; [reflexivity|]. intro E; subst; discriminate.
Qed.

(** ** The mart queries do not fail on positive index values *)

















(** ** Staging run *)

Lemma length_left_join_categories cats c :
  length (left_join_categories cats c)
  = Nat.max 1 (length (filter (category_matches c) cats)).
Proof.
  unfold left_join_categories.
  destruct (filter (category_matches c) cats) as [|m ms]; simpl;
    [reflexivity|rewrite length_map; lia].
Qed.

Lemma length_transform_cpi_monthly raw cats :
  length (transform_cpi_monthly raw cats)
  = list_sum (map (fun c => Nat.max 1 (length (filter (category_matches c) cats))) raw).
Proof.
  unfold transform_cpi_monthly.
  rewrite (Permutation_length (Permutation_sort_with _ _)), length_flat_map.
  apply f_equal, map_ext; intro c; apply length_left_join_categories.
Qed.

(** The staging table has as many rows as raw.cpi_data exactly when no raw
    observation matches two or more 2-digit categories. *)
Lemma list_sum_cons x l : list_sum (x :: l) = x + list_sum l.
Proof. reflexivity. Qed.

Lemma transform_cpi_monthly_length_eq raw cats :
  length (transform_cpi_monthly raw cats) = length raw
  <-> ~ exists c, In c raw /\ 2 <= length (filter (category_matches c) cats).
Proof.
  rewrite length_transform_cpi_monthly.
  assert (Hge : forall l, length l <= list_sum (map (fun c => Nat.max 1
                                (length (filter (category_matches c) cats))) l)).
  { induction l as [|c l IH]; cbn [map length]; rewrite ?list_sum_cons; [lia|].
    pose proof (Nat.le_max_l 1 (length (filter (category_matches c) cats))); lia. }
  induction raw as [|c raw IH]; cbn [map length]; rewrite ?list_sum_cons.
  - split; [intros _ [c [[] _]]|reflexivity].
  - specialize (Hge raw). split.
    + intros Heq [c' [[<-|Hin] H2]].
      * pose proof (Nat.le_max_r 1 (length (filter (category_matches c) cats))); lia.
      * apply IH; [|exists c'; split; assumption].
        pose proof (Nat.le_max_l 1 (length (filter (category_matches c) cats))).
        lia.
    + intros Hno.
      assert (Hc : length (filter (category_matches c) cats) <= 1).
      { destruct (Nat.le_gt_cases (length (filter (category_matches c) cats)) 1)
          as [Hle|Hgt]; [exact Hle|].
        exfalso; apply Hno; exists c; split; [left; reflexivity|lia]. }
      rewrite (proj2 IH); [rewrite Nat.max_l by lia; reflexivity|].
      intros [c' [Hin H2]]; apply Hno; exists c'; split; [right; exact Hin|exact H2].
Qed.

Lemma left_join_categories_index cats c r :
  In r (left_join_categories cats c) -> index_value r = raw_index c.
Proof.
  unfold left_join_categories.
  destruct (filter (category_matches c) cats) as [|m ms].
  - intros [<-|[]]; reflexivity.
  - intro H; apply in_map_iff in H as [cat [<- _]]; reflexivity.
Qed.

Lemma left_join_categories_nonempty cats c :
  exists r, In r (left_join_categories cats c).
Proof.
  unfold left_join_categories.
  destruct (filter (category_matches c) cats) as [|m ms].
  - eexists; left; reflexivity.
  - eexists; apply in_map; left; reflexivity.
Qed.

Lemma transform_cpi_monthly_null_index raw cats :
  0 < length (filter is_null_index (transform_cpi_monthly raw cats))
  <-> exists c, In c raw /\ raw_index c = None.
Proof.
  unfold transform_cpi_monthly.
  rewrite (Permutation_length_filter _ _ _ (Permutation_sort_with _ _)).
  split.
  - intro H. destruct (filter is_null_index (flat_map _ raw)) as [|r rs] eqn:E;
      simpl in H; [lia|].
    assert (Hr : In r (filter is_null_index (flat_map (left_join_categories cats) raw)))
      by (rewrite E; left; reflexivity).
    apply filter_In in Hr as [Hr Hnull]. apply in_flat_map in Hr as [c [Hc Hj]].
    exists c; split; [exact Hc|]. rewrite <- (left_join_categories_index _ _ _ Hj).
    unfold is_null_index in Hnull; destruct (index_value r); [discriminate|reflexivity].
  - intros [c [Hc Hnone]].
    destruct (left_join_categories_nonempty cats c) as [r Hr].
    assert (Hin : In r (filter is_null_index (flat_map (left_join_categories cats) raw))).
    { apply filter_In; split; [apply in_flat_map; exists c; split; assumption|].
      unfold is_null_index; rewrite (left_join_categories_index _ _ _ Hr), Hnone.
      reflexivity. }
    destruct (filter is_null_index _); [contradiction|simpl; lia].
Qed.

(** X8.  When the storage layer raises nothing, the staging run returns
    [true] having replaced staging.categories with the 2-digit categories
    and staging.cpi_monthly with the joined rows; validation findings only
    add warnings: a row-count warning exactly when some raw observation
    matches two or more 2-digit category rows, and a null warning whenever
    some raw observation has a NULL index. *)
Theorem staging_run_all_validation env w
  (Hread : forall n, stg_read_error env n = None)
  (Hwrite : forall n, stg_write_error env n = None) :
  let '(w', res) := staging_run_all env w in
  res = Ok true /\
  stg_categories w' = Some (categories_query (raw_categories w)) /\
  stg_cpi_monthly_tbl w'
  = Some (transform_cpi_monthly (raw_cpi_data w) (raw_categories w)) /\
  exists new,
    staging_warnings w' = staging_warnings w ++ new /\
    ((exists n m, In (RowCountMismatch n m) new) <->
     exists c, In c (raw_cpi_data w) /\
               2 <= length (filter (category_matches c) (raw_categories w))) /\
    ((exists c, In c (raw_cpi_data w) /\ raw_index c = None) ->
     exists a b k, In (NullsFound a b k) new).
Proof.
  destruct w as [raw cats sc sm warns]; simpl.
  set (t := transform_cpi_monthly raw cats).
  assert (HP : (exists c, In c raw /\ 2 <= length (filter (category_matches c) cats))
               <-> (length raw =? length t) = false).
  { rewrite Nat.eqb_neq. split.
    - intros Hc E. apply (proj1 (transform_cpi_monthly_length_eq raw cats)); auto.
    - intro Hne. destruct (existsb (fun c => 2 <=? length (filter (category_matches c) cats)) raw)
        eqn:Eb.
      + apply existsb_exists in Eb as [c [Hc H2]]. apply Nat.leb_le in H2; eauto.
      + exfalso; apply Hne; symmetry; apply transform_cpi_monthly_length_eq.
        intros [c [Hc H2]]. apply Nat.leb_le in H2.
        assert (Hex : existsb (fun c => 2 <=? length (filter (category_matches c) cats)) raw
                      = true) by (apply existsb_exists; eauto).
        congruence. }
  pose proof (transform_cpi_monthly_null_index raw cats) as HN. fold t in HN.
  unfold staging_run_all, transform_categories, transform_cpi_monthly_method,
    validate_staging, read_sql, to_sql_staging, staging_table, log_warning,
    ptry, pbind, pret, bind; simpl.
  repeat (simpl; match goal with
                 | |- context [stg_read_error env ?n] => rewrite (Hread n)
                 | |- context [stg_write_error env ?n] => rewrite (Hwrite n)
                 end).
  cbn. fold t.
  destruct (length raw =? length t) eqn:Elen;
    cbn; match goal with
    | |- context [match ?x with 0 => _ | S _ => _ end] =>
        destruct x as [|k] eqn:En
    end; cbn;
    (split; [reflexivity|]); (split; [reflexivity|]); (split; [reflexivity|]);
    eexists; (split; [rewrite <- ?app_assoc; first [reflexivity | symmetry; apply app_nil_r]|]);
    (split; [rewrite HP; split|rewrite <- HN]); simpl;
    first [ intros (? & ? & Hin); simpl in Hin; intuition discriminate
          | intros (? & ? & ? & Hin); simpl in Hin; intuition discriminate
          | intros; discriminate
          | intros; lia
          | intros; eexists; eexists; try eexists; simpl; eauto ].
Qed.


(** X9.  [run_all] of the staging transformer never raises and never
    touches the raw tables: it returns [true] exactly when none of its five
    queries and neither of its two writes fails, and [false] otherwise. *)
Theorem staging_run_all_outcome env w :
  let '(w', res) := staging_run_all env w in
  raw_cpi_data w' = raw_cpi_data w /\
  raw_categories w' = raw_categories w /\
  res = Ok (forallb (fun n => match stg_read_error env n with None => true | Some _ => false end)
                    staging_reads &&
            forallb (fun n => match stg_write_error env n with None => true | Some _ => false end)
                    staging_writes).
Proof.
  destruct w as [raw cats sc sm warns].
  unfold staging_reads, staging_writes, staging_run_all, transform_categories,
    transform_cpi_monthly_method, validate_staging, read_sql, to_sql_staging,
    staging_table, log_warning, ptry, pbind, pret, bind; cbn.
  repeat (cbn; match goal with
               | |- context [stg_read_error env ?n] =>
                   destruct (stg_read_error env n)
               | |- context [stg_write_error env ?n] =>
                   destruct (stg_write_error env n)
               | |- context [negb (?a =? ?b)] => destruct (a =? b)
               | |- context [match ?x with 0 => _ | S _ => _ end] => destruct x
               end);
    cbn; auto.
Qed.


Lemma find_filter_irrelevant {A} (f g : A -> bool) (l : list A) :
  (forall x, f x = true -> g x = true) -> find f (filter g l) = find f l.
Proof.
  intros Hfg; induction l as [|x l IH]; simpl; auto.
  destruct (g x) eqn:Eg; simpl.
  - destruct (f x); auto.
  - destruct (f x) eqn:Ef; auto. rewrite (Hfg x Ef) in Eg; discriminate.
Qed.

Lemma lookup_set_table_same t n tbls :
  lookup_table t (set_table t n tbls) = Some n.
Proof. unfold lookup_table, set_table; simpl; rewrite String.eqb_refl; reflexivity. Qed.

Lemma lookup_set_table_other t t' n tbls :
  t' <> t -> lookup_table t' (set_table t n tbls) = lookup_table t' tbls.
Proof.
  intros Hne; unfold lookup_table, set_table; simpl.
  destruct (String.eqb t t') eqn:E.
  - apply String.eqb_eq in E; congruence.
  - rewrite find_filter_irrelevant; auto.
    intros [a b] Hx; simpl in *. apply String.eqb_eq in Hx; subst a.
    rewrite String.eqb_sym, E; reflexivity.
Qed.

(** X10.  When [df.to_sql] itself raises nothing for the table, the
    [if_exists] mode decides: 'fail' on an existing table raises pandas'
    "Table '...' already exists." and leaves the tables as they were;
    'append' on an existing table of m rows leaves m + n rows; otherwise
    the table holds exactly the n new rows.  Other raw tables never
    change. *)
Theorem load_to_raw_if_exists env mode table n w
  (Hok : to_sql_error env table = None) :
  let '(w', res) := load_to_raw env mode table n w in
  (forall t, t <> table -> lookup_table t (raw_tables w') = lookup_table t (raw_tables w)) /\
  match mode, lookup_table table (raw_tables w) with
  | FailIfExists, Some _ =>
      res = Raise ("Table '" ++ table ++ "' already exists.")%string /\
      raw_tables w' = raw_tables w
  | Append, Some m => res = Ok n /\ lookup_table table (raw_tables w') = Some (m + n)
  | _, _ => res = Ok n /\ lookup_table table (raw_tables w') = Some n
  end.
Proof.
  rewrite load_to_raw_run. unfold to_sql_outcome, stored_count, failed_tables; rewrite Hok.
  destruct mode, (lookup_table table (raw_tables w)) eqn:El; simpl;
    repeat split; auto using lookup_set_table_same, lookup_set_table_other.
Qed.

(** Raw tables other than the one being loaded never change. *)
Lemma load_to_raw_other_tables env mode table n w t :
  t <> table ->
  lookup_table t (raw_tables (fst (load_to_raw env mode table n w)))
  = lookup_table t (raw_tables w).
Proof.
  intros Hne; rewrite load_to_raw_run.
  destruct (to_sql_outcome env mode table w); simpl; auto using lookup_set_table_other.
  unfold failed_tables.
  destruct (to_sql_error env table) as [f|]; [destruct (rows_left f)|]; auto.
  apply lookup_set_table_other; exact Hne.
Qed.

(** X11.  The DAG task [load_to_database] loads raw.cpi_data and then
    raw.categories.  If the first load raises, the call raises its error and
    the second load is not attempted: every raw table but raw.cpi_data keeps
    its contents, and raw.cpi_data holds what the failed load left of it.
    If only the second load raises, raw.cpi_data already holds the new rows
    and raw.categories what the failed load left of it.  Otherwise the call
    returns both counts and both tables hold them.  No other raw table
    changes. *)
Theorem load_to_database_outcome env cpi_count cat_count w :
  let '(w', res) := load_to_database env cpi_count cat_count w in
  (forall t, t <> "cpi_data" -> t <> "categories" ->
             lookup_table t (raw_tables w') = lookup_table t (raw_tables w)) /\
  match to_sql_error env "cpi_data", to_sql_error env "categories" with
  | Some f, _ =>
      res = Raise (failure_message f) /\
      (forall t, t <> "cpi_data" ->
                 lookup_table t (raw_tables w') = lookup_table t (raw_tables w)) /\
      lookup_table "cpi_data" (raw_tables w')
      = match rows_left f with
        | Some k => Some k
        | None => lookup_table "cpi_data" (raw_tables w)
        end
  | None, Some f =>
      res = Raise (failure_message f) /\
      lookup_table "cpi_data" (raw_tables w') = Some cpi_count /\
      lookup_table "categories" (raw_tables w')
      = match rows_left f with
        | Some k => Some k
        | None => lookup_table "categories" (raw_tables w)
        end
  | None, None =>
      res = Ok (cpi_count, cat_count) /\
      lookup_table "cpi_data" (raw_tables w') = Some cpi_count /\
      lookup_table "categories" (raw_tables w') = Some cat_count
  end.
Proof.
  unfold load_to_database, pbind, pret.
  rewrite load_to_raw_run. unfold to_sql_outcome, failed_tables, stored_count.
  destruct (to_sql_error env "cpi_data") as [f1|] eqn:E1; cbn [raw_tables fst snd].
  - destruct (rows_left f1) as [k|]; cbn [raw_tables fst snd];
      repeat split; intros;
      repeat first [ rewrite lookup_set_table_same
                   | rewrite lookup_set_table_other by (auto; discriminate) ];
      auto.
  - rewrite load_to_raw_run. unfold to_sql_outcome, failed_tables, stored_count.
    destruct (to_sql_error env "categories") as [f2|] eqn:E2; cbn [raw_tables fst snd];
      [destruct (rows_left f2) as [k|]; cbn [raw_tables fst snd]|];
      repeat split; intros;
      repeat first [ rewrite lookup_set_table_same
                   | rewrite lookup_set_table_other by (auto; discriminate) ];
      auto.
Qed.



(** X13.  When the S3 client raises nothing but [ClientError],
    [upload_data_backup] returns normally; it calls the client once for
    each snapshot file that exists locally and never for a missing one, and
    lists as failed (by local path) each file that is missing or whose
    upload was refused. *)
Theorem upload_data_backup_no_transfer_error env date_partition w
  (Hclient : forall l k e, client_upload env l k <> OtherErr e) :
  let date := match date_partition with
              | Some d => if String.eqb d "" then today env else d
              | None => today env
              end in
  exists w' r,
    upload_data_backup env date_partition w = (w', Ok r) /\
    local_files w' = local_files w /\
    upload_calls w'
    = upload_calls w
      ++ filter (fun lk => existsb (String.eqb (fst lk)) (local_files w))
                (files_to_upload date) /\
    failed r
    = map fst (filter (fun lk => negb (existsb (String.eqb (fst lk)) (local_files w)
                                       && upload_succeeds
                                            (client_upload env (fst lk) (snd lk))))
                      (files_to_upload date)).
Proof.
  intro date. unfold upload_data_backup; fold date.
  destruct (upload_each_classifies env (files_to_upload date) (mk_backup_results date [] []) w)
    as [w' [r [Hrun [Hl [Hc [Hu Hf]]]]]].
  { intros l k e _ _; apply Hclient. }
  exists w', r; auto.
Qed.



Lemma ptry_never_raises {W A} (m : PyM W A) (h : string -> PyM W A) w e :
  (forall e' w', snd (h e' w') <> Raise e) -> snd (ptry m h w) <> Raise e.
Proof.
  unfold ptry; intros Hh. destruct (m w) as [w' [a|e']]; simpl; [discriminate|apply Hh].
Qed.

Lemma pbind_drop_ok {W A} (m : PyM W A) w :
  (forall e, snd (m w) <> Raise e) ->
  (_ <- m ;; pret tt) w = (fst (m w), Ok tt).
Proof.
  unfold pbind, pret; intros Hm. destruct (m w) as [w' [a|e]]; simpl in *; auto.
  exfalso; apply (Hm e); reflexivity.
Qed.

(** X14.  The Airflow tasks [transform_staging] and [transform_mart] never
    fail: whatever [run_all] reports, the task succeeds, so the downstream
    tasks run even after a failed transformation. *)
Theorem dag_transform_tasks_never_fail senv sw menv mw :
  transform_staging_task senv sw = (fst (staging_run_all senv sw), Ok tt) /\
  transform_mart_task menv mw = (fst (mart_run_all menv mw), Ok tt).
Proof.
  split; apply pbind_drop_ok; intros e; apply ptry_never_raises;
    intros e' w'; unfold pret; simpl; discriminate.
Qed.






(** ** Witnesses *)

Lemma inflation_by_state_row_count_witness :
  inflation_by_state selangor_rows = Ok selangor_out /\
  length selangor_out
  = length (filter (fun r => sql_eq_lit (division r) "overall") selangor_rows).
Proof.
  assert (H : inflation_by_state selangor_rows = Ok selangor_out) by (vm_compute; reflexivity).
  split; [exact H | apply (inflation_by_state_row_count selangor_rows selangor_out H)].
Defined.

Lemma inflation_by_state_sorted_witness :
  inflation_by_state gapless_null_rows = Ok gapless_null_out /\
  StronglySorted state_date_le
    (map (fun o => (ibs_state o, ibs_date o)) gapless_null_out).
Proof.
  assert (H : inflation_by_state gapless_null_rows = Ok gapless_null_out)
    by (vm_compute; reflexivity).
  split; [exact H | apply (inflation_by_state_sorted gapless_null_rows gapless_null_out H)].
Defined.

Lemma state_comparison_order_rank_witness :
  state_comparison abc_rows abc_states = Ok abc_out /\
  Sorted (fun a b => desc_before (overall_cpi b) (overall_cpi a) = false /\
                     rank_overall a <= rank_overall b) abc_out.
Proof.
  assert (H : state_comparison abc_rows abc_states = Ok abc_out) by (vm_compute; reflexivity).
  split; [exact H | apply (state_comparison_order_rank abc_rows abc_states abc_out H)].
Defined.

Lemma state_comparison_one_row_per_state_witness :
  NoDup (map state_name abc_states) /\
  state_comparison abc_rows abc_states = Ok abc_out /\
  match max_date abc_rows with
  | None => abc_out = []
  | Some m =>
      Permutation (map sc_state abc_out)
                  (distinct_sorted (map state (filter (fun r => Nat.eqb (date r) m) abc_rows))) /\
      forall o, In o abc_out ->
        sc_latest_date o = m /\
        region o = match find (fun s => String.eqb (state_name s) (sc_state o)) abc_states with
                   | Some s => dim_region s
                   | None => None
                   end
  end.
Proof.
  assert (Hu : NoDup (map state_name abc_states)).
  { simpl. constructor; [simpl; intros [E|[]]; discriminate|].
    constructor; [intros []|constructor]. }
  assert (H : state_comparison abc_rows abc_states = Ok abc_out) by (vm_compute; reflexivity).
  split; [exact Hu|]. split; [exact H|].
  apply (state_comparison_one_row_per_state abc_rows abc_states abc_out Hu H).
Defined.

Lemma inflation_by_category_groups_witness :
  inflation_by_category cat_rows = Ok cat_out /\
  length cat_out = length (dedup key_eqb (map group_key (category_source cat_rows))) /\
  forall o, In o cat_out -> exists d, ibc_division o = Some d /\ d <> "overall".
Proof.
  assert (H : inflation_by_category cat_rows = Ok cat_out) by (vm_compute; reflexivity).
  split; [exact H | apply (inflation_by_category_groups cat_rows cat_out H)].
Defined.


Lemma staging_run_all_validation_witness :
  let '(w', res) := staging_run_all all_ok_staging_env dup_staging_world in
  res = Ok true /\
  stg_categories w' = Some (categories_query dup_cats) /\
  stg_cpi_monthly_tbl w' = Some (transform_cpi_monthly raw_rows_null dup_cats) /\
  exists new,
    staging_warnings w' = [] ++ new /\
    ((exists n m, In (RowCountMismatch n m) new) <->
     exists c, In c raw_rows_null /\ 2 <= length (filter (category_matches c) dup_cats)) /\
    ((exists c, In c raw_rows_null /\ raw_index c = None) ->
     exists a b k, In (NullsFound a b k) new).
Proof.
  apply (staging_run_all_validation all_ok_staging_env dup_staging_world);
    intros; reflexivity.
Defined.

Lemma load_to_raw_if_exists_witness :
  to_sql_error all_ok_loader_env "cpi_data" = None /\
  let '(w', res) := load_to_raw all_ok_loader_env Append "cpi_data" 3 cpi_loaded_warehouse in
  (forall t, t <> "cpi_data" ->
             lookup_table t (raw_tables w') = lookup_table t (raw_tables cpi_loaded_warehouse)) /\
  res = Ok 3 /\ lookup_table "cpi_data" (raw_tables w') = Some (2 + 3).
Proof.
  split; [reflexivity|].
  exact (load_to_raw_if_exists all_ok_loader_env Append "cpi_data" 3 cpi_loaded_warehouse
           eq_refl).
Defined.

Lemma load_to_database_outcome_witness :
  let '(w', res) := load_to_database all_ok_loader_env 3 2 cpi_loaded_warehouse in
  (forall t, t <> "cpi_data" -> t <> "categories" ->
             lookup_table t (raw_tables w') = lookup_table t (raw_tables cpi_loaded_warehouse)) /\
  res = Ok (3, 2) /\
  lookup_table "cpi_data" (raw_tables w') = Some 3 /\
  lookup_table "categories" (raw_tables w') = Some 2.
Proof. exact (load_to_database_outcome all_ok_loader_env 3 2 cpi_loaded_warehouse). Defined.


Lemma upload_data_backup_no_transfer_error_witness :
  exists w' r,
    upload_data_backup access_denied_env None both_snapshots = (w', Ok r) /\
    local_files w' = local_files both_snapshots /\
    upload_calls w'
    = upload_calls both_snapshots
      ++ filter (fun lk => existsb (String.eqb (fst lk)) (local_files both_snapshots))
                (files_to_upload "2025-06-01") /\
    failed r
    = map fst (filter (fun lk => negb (existsb (String.eqb (fst lk))
                                                (local_files both_snapshots)
                                       && upload_succeeds
                                            (client_upload access_denied_env
                                               (fst lk) (snd lk))))
                      (files_to_upload "2025-06-01")).
Proof.
  apply (upload_data_backup_no_transfer_error access_denied_env None both_snapshots).
  intros l k e; simpl. destruct (String.eqb l "data/raw/categories.parquet"); discriminate.
Defined.
